(** * Welly curves: a shallow embedding of [welly/curve.py]

    The class [Curve] of [welly/curve.py] is a numpy array of samples that
    carries its basis geometry ([start], [step]) and descriptive metadata.
    This development embeds the numeric core of that class: basis geometry,
    point reads, resampling, blocking, construction from a depth array or
    on a basis, slicing, rolling windows and the quality-test protocol.

    Numbers.  Python floats are modelled by the rationals [Q] with exact
    arithmetic; Python's [==] on numbers is [Qeq].  The samples of a curve
    hold no NaN and no infinity: a call whose Python result would carry
    one has the outcome [Py.Unmodelled].  Only the arrays of the rolling
    windows, which treat NaN on purpose, carry it, as [None].  One
    computation whose outcome depends on binary64 rounding (the sample
    count of [to_basis]) is transcribed a second time on primitive floats
    in [Module Binary64].

    Faults.  A Python exception is a value of [Py.exn]; a computation that
    may raise returns [Py.res].

    Helpers.  [welly/utils.py] is not part of the source at hand; the
    helpers the embedded methods call are modelled in [Module Utils] from
    what the specification says of them.  numpy and scipy functions are
    modelled in [Module Np] and [Module Sp] from their documented
    behaviour. *)

From Stdlib Require Import String List ZArith QArith Qround Qabs Qminmax.
From Stdlib Require Import Bool Lia Lqa.
From Stdlib Require Import Permutation Sorted.
From Stdlib Require Import Uint63 Floats.
Import ListNotations.
Local Open Scope Q_scope.

(* ================================================================== *)
(** ** Python values, exceptions and sequence indexing *)

Module Py.

(** The exceptions the embedded code can raise.  [NameError] covers
    [UnboundLocalError] (its subclass); [ArithmeticError] covers
    [ZeroDivisionError] and [OverflowError]. *)
Inductive exn : Type :=
| IndexError
| NameError
| ValueError
| TypeError
| ArithmeticError
| CurveError (msg : string).

(** The outcome of a call: a value, an exception, or [Unmodelled] when
    Python has an outcome this model has no value for: a NaN,
    an array handed to code embedded here for scalars, or a value that
    depends on what the model does not hold (memory outside an array, the
    search of [np.interp] through an array that is not increasing, the
    kind of float, Python's or numpy's, behind an exception). *)
Inductive res (A : Type) : Type :=
| Ok (a : A)
| Raise (e : exn)
| Unmodelled.

Arguments Ok {A} a.
Arguments Raise {A} e.
Arguments Unmodelled {A}.

Definition bind {A B : Type} (m : res A) (k : A -> res B) : res B :=
  match m with
  | Ok a => k a
  | Raise e => Raise e
  | Unmodelled => Unmodelled
  end.

(** [[f(x) for x in xs]]: the first exception ends the comprehension. *)
Fixpoint traverse {A B : Type} (f : A -> res B) (xs : list A) : res (list B) :=
  match xs with
  | [] => Ok []
  | x :: xs' =>
      bind (f x) (fun y => bind (traverse f xs') (fun ys => Ok (y :: ys)))
  end.

(** [a[i]] for an integer [i]: indices [-len .. len-1] are valid, negative
    ones count from the end, anything else raises [IndexError]. *)
Definition getitem {A : Type} (a : list A) (i : Z) : res A :=
  let n := Z.of_nat (length a) in
  let j := if (i <? 0)%Z then (n + i)%Z else i in
  if ((0 <=? j)%Z && (j <? n)%Z)%bool then
    match nth_error a (Z.to_nat j) with
    | Some x => Ok x
    | None => Raise IndexError
    end
  else Raise IndexError.

(** [a[lo:hi]], [a[lo:]], [a[1:]] and [a[:-1]] for non-negative bounds. *)
Definition slice {A : Type} (a : list A) (lo hi : nat) : list A :=
  firstn (hi - lo) (skipn lo a).

Definition slice_from {A : Type} (a : list A) (lo : nat) : list A :=
  skipn lo a.

Definition all_but_last {A : Type} (a : list A) : list A :=
  removelast a.

(** [a[lo:hi] = v] with a scalar [v]: numpy broadcasts [v] over the slice;
    bounds beyond the end are clipped. *)
Fixpoint fill_slice (a : list Q) (lo hi : nat) (v : Q) : list Q :=
  match a with
  | [] => []
  | x :: a' =>
      match lo, hi with
      | _, O => x :: a'
      | O, S hi' => v :: fill_slice a' O hi' v
      | S lo', S hi' => x :: fill_slice a' lo' hi' v
      end
  end.

Definition fill_from (a : list Q) (lo : nat) (v : Q) : list Q :=
  fill_slice a lo (length a) v.

(** [int(x)] on a number: truncation toward zero. *)
Definition int (x : Q) : Z := Z.quot (Qnum x) (Zpos (Qden x)).

End Py.

Import Py.

Notation "x <- m ;; k" := (Py.bind m (fun x => k))
  (at level 61, m at next level, right associativity).

(* ================================================================== *)
(** ** The numpy functions the class calls *)

Module Np.

Definition Qltb (x y : Q) : bool := negb (Qle_bool y x).

Definition of_nat (i : nat) : Q := inject_Z (Z.of_nat i).

(** [np.arange(0, num)] as numbers. *)
Definition iota (num : nat) : list Q := map of_nat (seq 0 num).

Fixpoint set_last (y : list Q) (v : Q) : list Q :=
  match y with
  | [] => []
  | [_] => [v]
  | x :: y' => x :: set_last y' v
  end.

(** [np.linspace(start, stop, num, endpoint=True)] for [num >= 0]:
    [arange(0, num) * step + start] with [step = (stop - start) / (num - 1)],
    the last entry then overwritten by [stop] when [num > 1]. *)
Definition linspace (start stop : Q) (num : nat) : list Q :=
  let div := (Z.of_nat num - 1)%Z in
  let delta := stop - start in
  let y := iota num in
  let y :=
    if (0 <? div)%Z then
      let step := delta / inject_Z div in
      if Qeq_bool step 0
      then map (fun v => v / inject_Z div * delta) y
      else map (fun v => v * step) y
    else map (fun v => v * delta) y in
  let y := map (fun v => v + start) y in
  if (1 <? num)%nat then set_last y stop else y.

(** [np.linspace] with an integer count: a negative count is a
    [ValueError]. *)
Definition linspace_Z (start stop : Q) (num : Z) : res (list Q) :=
  if (num <? 0)%Z then Raise ValueError
  else Ok (linspace start stop (Z.to_nat num)).

(** [np.amin], [np.amax]: a [ValueError] on an empty array. *)
Definition amin (a : list Q) : res Q :=
  match a with
  | [] => Raise ValueError
  | x :: a' => Ok (fold_left Qmin a' x)
  end.

Definition amax (a : list Q) : res Q :=
  match a with
  | [] => Raise ValueError
  | x :: a' => Ok (fold_left Qmax a' x)
  end.

Definition sum (a : list Q) : Q := fold_left Qplus a 0.

(** [np.mean].  On an empty array numpy answers NaN; the callers below use
    the mean of an empty array only against an empty array of samples, so
    its value there ([0 / 0 == 0] in [Q]) reaches no result. *)
Definition mean (a : list Q) : Q := sum a / of_nat (length a).

(** [np.diff]: successive differences. *)
Fixpoint diff (a : list Q) : list Q :=
  match a with
  | x :: ((y :: _) as a') => (y - x) :: diff a'
  | _ => []
  end.

Definition zeros_like (a : list Q) : list Q := map (fun _ => 0) a.

Definition atol : Q := 1 # 100000000.
Definition rtol : Q := 1 # 100000.

(** [np.allclose(a, b)] for arrays of one shape:
    [|a - b| <= atol + rtol * |b|] everywhere. *)
Fixpoint allclose (a b : list Q) : bool :=
  match a, b with
  | x :: a', y :: b' =>
      Qle_bool (Qabs (x - y)) (atol + rtol * Qabs y) && allclose a' b'
  | _, _ => true
  end.

(** Ascending sort (stable insertion), for [np.nanmedian] and for the
    argsort of [interp1d]. *)
Fixpoint insert_by {A : Type} (key : A -> Q) (x : A) (l : list A) : list A :=
  match l with
  | [] => [x]
  | y :: l' =>
      if Qle_bool (key x) (key y) then x :: y :: l' else y :: insert_by key x l'
  end.

Definition sort_by {A : Type} (key : A -> Q) (l : list A) : list A :=
  fold_right (insert_by key) [] l.

(** [np.nanmedian] of an array without NaN: the middle entry of the sorted
    array, or the mean of the two middle entries; [None] stands for the NaN
    numpy answers on an empty array. *)
Definition nanmedian (a : list Q) : option Q :=
  let s := sort_by (fun x => x) a in
  let n := length s in
  match n with
  | O => None
  | _ =>
      if Nat.even n
      then Some ((nth (n / 2 - 1) s 0 + nth (n / 2) s 0) / 2)
      else Some (nth (n / 2) s 0)
  end.

(** The largest index of the platform, [NPY_MAX_INTP] on 64 bits. *)
Definition intp_max : Z := 9223372036854775807.

(** [np.arange(start, stop, step)] on numpy floats:
    [ceil((stop - start) / step)] entries [start + i * step]; none when
    that count is not positive.  numpy raises a [ValueError] when it cannot
    size the array: on a zero step, whose quotient is not finite, and on a
    length whose array of 8-byte floats passes the largest index.  A
    length below that is taken to be allocated. *)
Definition arange (start stop step : Q) : res (list Q) :=
  if Qeq_bool step 0 then Raise ValueError
  else
    let len := Qceiling ((stop - start) / step) in
    if ((len <? - intp_max - 1) || (intp_max <? len * 8))%Z
    then Raise ValueError
    else Ok (map (fun v => start + v * step) (iota (Z.to_nat len))).

(** The number of leading entries of [a] that are [<= v] ([strict = false])
    or [< v] ([strict = true]).  On an ascending array this is numpy's
    insertion point [searchsorted(a, v, side)] with [side = 'right'] resp.
    ['left'], which numpy finds by bisection. *)
Fixpoint searchsorted (strict : bool) (a : list Q) (v : Q) : nat :=
  match a with
  | [] => O
  | x :: a' =>
      if (if strict then Qltb x v else Qle_bool x v)
      then S (searchsorted strict a' v)
      else O
  end.

(** [np.interp(x, xp, fp)] at one point, for non-empty ascending [xp] and
    [fp] of one length: [fp[-1]] right of [xp], [fp[0]] left of it (numpy
    tests in this order), otherwise with [xp[j] <= x < xp[j+1]] the value
    [fp[j]] when [j] is the last index or [xp[j] == x], and
    [slope * (x - xp[j]) + fp[j]] else.  On an ascending [xp] the index
    [j] numpy finds by bisection is the number of leading entries [<= x],
    less one. *)
Definition interp1 (xp fp : list Q) (x : Q) : Q :=
  if Qltb (last xp 0) x then last fp 0
  else if Qltb x (hd 0 xp) then hd 0 fp
  else
    let j := (searchsorted false xp x - 1)%nat in
    let xj := nth j xp 0 in
    let yj := nth j fp 0 in
    if (j =? length xp - 1)%nat then yj
    else if Qeq_bool xj x then yj
    else
      let slope := (nth (S j) fp 0 - yj) / (nth (S j) xp 0 - xj) in
      slope * (x - xj) + yj.

(** An array that never steps down; the monotonicity test of
    [np.digitize] answers [1] for it (also for an empty or a constant one),
    [-1] for a descending one, [0] otherwise. *)
Fixpoint ascending (a : list Q) : bool :=
  match a with
  | x :: ((y :: _) as a') => Qle_bool x y && ascending a'
  | _ => true
  end.

(** [np.interp(x, xp, fp)].  numpy requires [xp] increasing and does not
    check it: what its search returns on another [xp] is left
    unmodelled. *)
Definition interp (x xp fp : list Q) : res (list Q) :=
  match xp with
  | [] => Raise ValueError
  | _ =>
      if (length fp =? length xp)%nat
      then if ascending xp then Ok (map (interp1 xp fp) x) else Unmodelled
      else Raise ValueError
  end.

Fixpoint descending (a : list Q) : bool :=
  match a with
  | x :: ((y :: _) as a') => Qle_bool y x && descending a'
  | _ => true
  end.

Definition monotonicity (a : list Q) : Z :=
  if ascending a then 1%Z else if descending a then (-1)%Z else 0%Z.

(** [np.digitize(x, bins, right)] for a one-dimensional [bins]: the index
    [i] with [bins[i-1] <= x < bins[i]] ([right = False]) or
    [bins[i-1] < x <= bins[i]] ([right = True]) on ascending bins, the
    mirrored index on descending ones, a [ValueError] on bins that are
    neither. *)
Definition digitize (x : list Q) (bins : list Q) (right : bool) : res (list Z) :=
  match monotonicity bins with
  | 1%Z => Ok (map (fun v => Z.of_nat (searchsorted right bins v)) x)
  | (-1)%Z =>
      Ok (map (fun v =>
                 (Z.of_nat (length bins)
                  - Z.of_nat (searchsorted right (rev bins) v))%Z) x)
  | _ => Raise ValueError
  end.

End Np.

(* ================================================================== *)
(** ** [scipy.interpolate.interp1d] *)

Module Sp.

(** [interp1d(x, y, kind='linear', bounds_error=False, fill_value=fill)]
    evaluated at the points [x_new]: the pairs are sorted by [x] (a stable
    argsort), the interpolant is [np.interp] on the sorted arrays, and every
    point outside [[x[0], x[-1]]] receives the fill value.  [fill = None] is
    the NaN fill: a point that needs it has no value in this model. *)
Definition interp1d (x y : list Q) (fill : option Q) (x_new : list Q)
  : res (list Q) :=
  if negb (length x =? length y)%nat then Raise ValueError
  else
    let xy := Np.sort_by fst (combine x y) in
    let xs := map fst xy in
    let ys := map snd xy in
    match xs with
    | [] => Raise ValueError
    | _ =>
        traverse
          (fun v =>
             if (Np.Qltb v (hd 0 xs) || Np.Qltb (last xs 0) v)%bool
             then match fill with Some u => Ok u | None => Unmodelled end
             else Ok (Np.interp1 xs ys v))
          x_new
    end.

End Sp.


(* ================================================================== *)
(** ** The helpers of [welly/utils.py] *)

Module Utils.

(** Modelled from the spec: [utils.find_previous] is not part of the source
    at hand.  For a point read the spec has it "locate the basis index at
    or before the query point" and give "the fractional distance" from that
    sample to its successor.  The index is [-1] when no basis point lies at
    or before the query; the distance is [0] where the sample has no
    successor to interpolate toward. *)
Definition find_previous (a : list Q) (value : Q) : Z * Q :=
  let n := Np.searchsorted false a value in
  match n with
  | O => ((-1)%Z, 0)
  | S i =>
      let ai := nth i a 0 in
      match nth_error a (S i) with
      | Some next => (Z.of_nat i, (value - ai) / (next - ai))
      | None => (Z.of_nat i, 0)
      end
  end.

(** Modelled from the spec: [utils.linear] is not part of the source at
    hand; the spec has the point read "linearly interpolate between that
    sample and its successor using the fractional distance". *)
Definition linear (u v d : Q) : Q := u + d * (v - u).

(** Modelled from the spec: [utils.flatten_list] is not part of the source
    at hand.  It receives one [tests.get(a)] per alias group [a] and the
    spec has the outcome hold "all tests registered under every alias group
    containing the mnemonic": the lists are concatenated, and the [None] of
    a group without registered tests stays as one entry for the filter that
    follows. *)
Definition flatten_list {A : Type} (l : list (option (list (option A))))
  : list (option A) :=
  flat_map (fun o => match o with Some ts => ts | None => [None] end) l.

(** Modelled from the spec: the edge detection of [utils.find_edges], which
    is not part of the source at hand: the indices after [i] at which the
    array departs from the entry before, paired with the new entry. *)
Fixpoint edges_from (i : nat) (prev : Q) (a : list Q) : list (nat * Q) :=
  match a with
  | [] => []
  | x :: a' =>
      if Qeq_bool x prev then edges_from (S i) x a'
      else (i, x) :: edges_from (S i) x a'
  end.

(** Modelled from the spec: [utils.find_edges] is not part of the source at
    hand.  The spec has the "contiguous runs of identical zone index"
    identified by "edge detection on the zone-index array": [tops] are the
    indices at which a run starts, [vals] the zone index of each run. *)
Definition find_edges (a : list Q) : list nat * list Q :=
  match a with
  | [] => ([], [])
  | x :: a' =>
      let e := (O, x) :: edges_from 1 x a' in
      (map fst e, map snd e)
  end.

End Utils.

(* ================================================================== *)
(** ** The curve and its basis geometry *)

Record Curve : Type := mkCurve {
  samples : list Q;
  start : Q;
  step : Q;
  mnemonic : string;
  units : option string;
  run : Z;
  null : Q;
  service_company : option string;
  date : option string;
  code : option string;
  basis_units : option string
}.

(** [self.shape[0]] *)
Definition shape0 (c : Curve) : nat := length (samples c).

(** [Curve.stop]: [self.start + (self.shape[0] - 1) * self.step]. *)
Definition stop (c : Curve) : Q :=
  start c + inject_Z (Z.of_nat (shape0 c) - 1) * step c.

(** [Curve.basis]:
    [np.linspace(self.start, self.stop, self.shape[0], endpoint=True)]. *)
Definition basis (c : Curve) : list Q :=
  Np.linspace (start c) (stop c) (shape0 c).

(** [Curve(data, params=params)] with [params = self.__dict__.copy()]:
    the metadata of [c] around new samples. *)
Definition with_samples (c : Curve) (data : list Q) : Curve :=
  mkCurve data (start c) (step c) (mnemonic c) (units c) (run c) (null c)
          (service_company c) (date c) (code c) (basis_units c).


(* ------------------------------------------------------------------ *)
(** *** Point reads *)

(** The keys of the [method] table of [_read_at]: ['linear'] and ['none']. *)
Inductive interpolation : Type := Linear | NoInterpolation.

(** [Curve._read_at(d, interpolation, index)]: the arguments [self[i]] and
    [self[i+1]] are evaluated, in this order, before the call of the
    interpolation method; the method of ['none'] is [None], whose call is a
    [TypeError]. *)
Definition _read_at (c : Curve) (d : Q) (interp : interpolation)
  (index : bool) : res Q :=
  let '(i, t) := Utils.find_previous (basis c) d in
  if index then Ok (inject_Z i)
  else
    u <- getitem (samples c) i ;;
    v <- getitem (samples c) (i + 1)%Z ;;
    match interp with
    | Linear => Ok (Utils.linear u v t)
    | NoInterpolation => Raise TypeError
    end.

(** The argument of [read_at]: one depth or an array of depths. *)
Inductive depths : Type :=
| Depth (d : Q)
| Depths (ds : list Q).

Inductive reading : Type :=
| Reading (v : Q)
| Readings (vs : list Q).

(** [Curve.read_at(d, **kwargs)]: the comprehension over [d] is tried
    first; on a scalar it raises (a float is not iterable) and the bare
    [except] falls back to [self._read_at(d)].  The same fallback on an
    array of depths, one of which raised, calls the scalar code on the
    array. *)
Definition read_at (c : Curve) (d : depths) (interp : interpolation)
  (index : bool) : res reading :=
  match d with
  | Depth d0 => v <- _read_at c d0 interp index ;; Ok (Reading v)
  | Depths ds =>
      match traverse (fun depth => _read_at c depth interp index) ds with
      | Ok vs => Ok (Readings vs)
      | _ => Unmodelled
      end
  end.

(* ------------------------------------------------------------------ *)
(** *** Resampling *)

(** [x if o is None else o], the default [x] evaluated only when needed. *)
Definition or_else (o : option Q) (x : res Q) : res Q :=
  match o with Some v => Ok v | None => x end.

(** [Curve.to_basis(basis, start, stop, step, undefined)] with the default
    [interp_kind='linear'].  A zero [new_step] raises: Python floats raise
    on the division ([ZeroDivisionError]), numpy floats on the [int()] of
    the quotient, an [OverflowError] when it is infinite.  Both are
    [ArithmeticError]s.  Under a zero difference a numpy quotient is NaN,
    whose [int()] is a [ValueError]: the quotient is a numpy float when
    one of the three numbers is read off the basis array; otherwise the
    numbers are of either kind, and so is the exception. *)
Definition to_basis (c : Curve) (basis_ : option (list Q))
  (start_ stop_ step_ : option Q) (undefined : option Q) : res Curve :=
  new_start <- or_else start_
      match basis_ with
      | None => Ok (start c)
      | Some b => getitem b 0
      end ;;
  new_stop <- or_else stop_
      match basis_ with
      | None => Ok (stop c)
      | Some b => getitem b (-1)
      end ;;
  new_step <- or_else step_
      match basis_ with
      | None => Ok (step c)
      | Some b => b1 <- getitem b 1 ;; b0 <- getitem b 0 ;; Ok (b1 - b0)
      end ;;
  if Qeq_bool new_step 0 then
    if Qeq_bool (new_stop - new_start) 0 then
      match basis_, start_, stop_, step_ with
      | Some _, None, _, _ | Some _, _, None, _ | Some _, _, _, None =>
          Raise ValueError
      | _, _, _, _ => Unmodelled
      end
    else Raise ArithmeticError
  else
    let steps := Qceiling ((new_stop - new_start) / new_step) in
    new_basis <- Np.linspace_Z new_start new_stop (steps + 1) ;;
    data <- Sp.interp1d (basis c) (samples c) undefined new_basis ;;
    Ok (mkCurve data new_start new_step (mnemonic c) (units c) (run c)
                (null c) (service_company c) (date c) (code c)
                (basis_units c)).


(* ------------------------------------------------------------------ *)
(** *** Construction from a depth array *)

Module Lasio.

(** What [from_lasio_curve] reads of a lasio curve object. *)
Record curve : Type := mk {
  data : list Q;
  unit : option string;
  mnemonic : string;
  descr : option string;
  API_code : option string
}.

End Lasio.

Definition irregular_msg : string :=
  "Irregular sampling in depth is not supported. "
  ++ "Interpolating to regular basis.".

(** The [adjustment] added to the last depth. *)
Definition adjustment : Q := 1 # 100000.

(** The locals of [from_lasio_curve] after its look at [depth]. *)
Record geometry : Type := mkGeometry {
  g_data : list Q;
  g_basis : option (list Q);
  g_start : option Q;
  g_stop : option Q;
  g_step : Q
}.

(** "See if we have uneven sampling": the first block of
    [from_lasio_curve], with the warnings it emits. *)
Definition regularize (data : list Q) (depth basis_ : option (list Q))
  (start_ stop_ : option Q) (step_ : Q) : list string * res geometry :=
  match depth with
  | None => ([], Ok (mkGeometry data basis_ start_ stop_ step_))
  | Some depth =>
      let d := Np.diff depth in
      if negb (Np.allclose (map (fun x => x - Np.mean d) d) (Np.zeros_like d))
      then
        ([irregular_msg],
         match Np.nanmedian d with
         | None => Unmodelled
         | Some step =>
             start <- getitem depth 0 ;;
             last_depth <- getitem depth (-1) ;;
             let stop := last_depth + adjustment in
             basis <- Np.arange start stop step ;;
             data <- Np.interp basis depth data ;;
             Ok (mkGeometry data (Some basis) (Some start) (Some stop) step)
         end)
      else
        ([],
         start <- getitem depth 0 ;;
         match Np.nanmedian d with
         | None => Unmodelled
         | Some step => Ok (mkGeometry data basis_ (Some start) stop_ step)
         end)
  end.

(** [Curve.from_lasio_curve]: the warnings emitted and the outcome.  In the
    last division a [start] taken from the arguments is a Python float and
    a zero divisor raises; a [start] read from a numpy array ([depth] or
    [basis]) gives a non-finite step instead. *)
Definition from_lasio_curve (curve : Lasio.curve)
  (depth basis_ : option (list Q)) (start_ stop_ : option Q) (step_ : Q)
  (run_ : Z) (null_ : Q) (service_company_ date_ basis_units_ : option string)
  : list string * res Curve :=
  let '(warnings, g) :=
    regularize (Lasio.data curve) depth basis_ start_ stop_ step_ in
  (warnings,
   g <- g ;;
   ss <- match g_start g with
         | Some s =>
             Ok (s, g_step g, match depth with None => true | _ => false end)
         | None =>
             match g_basis g with
             | Some b =>
                 s <- getitem b 0 ;;
                 b1 <- getitem b 1 ;;
                 b0 <- getitem b 0 ;;
                 Ok (s, b1 - b0, false)
             | None =>
                 Raise (CurveError "You must provide a basis or a start depth.")
             end
         end ;;
   let '(start, step, python_start) := ss in
   step <- (if Qeq_bool step 0 then
              match g_stop g with
              | None =>
                  Raise (CurveError "You must provide a step or a stop depth.")
              | Some stop =>
                  let n1 := (Z.of_nat (length (Lasio.data curve)) - 1)%Z in
                  if (n1 =? 0)%Z
                  then if python_start then Raise ArithmeticError
                       else Unmodelled
                  else Ok ((stop - start) / inject_Z n1)
              end
            else Ok step) ;;
   Ok (mkCurve (g_data g) start step (Lasio.mnemonic curve)
               (Lasio.unit curve) run_ null_ service_company_ date_
               (Lasio.API_code curve) basis_units_)).

(* ------------------------------------------------------------------ *)
(** *** Quality tests *)

(** What a test returns: "stick to booleans (True = pass) or ints". *)
Inductive value : Type :=
| VBool (b : bool)
| VNum (q : Q).

(** The number a value counts for in [sum(results)]. *)
Definition num_of (v : value) : Q :=
  match v with
  | VBool true => 1
  | VBool false => 0
  | VNum q => q
  end.

(** A test function: its [__name__] and what it returns on a curve. *)
Record Test : Type := mkTest {
  test_name : string;
  test_fn : Curve -> value
}.

(** A Python dict with string keys, in insertion order. *)
Definition dict (V : Type) : Type := list (string * V).

Fixpoint dict_get {V : Type} (d : dict V) (k : string) : option V :=
  match d with
  | [] => None
  | (k', v) :: d' => if String.eqb k k' then Some v else dict_get d' k
  end.

(** [d.get(k, default)] *)
Definition get_or {V : Type} (d : dict V) (k : string) (default : V) : V :=
  match dict_get d k with
  | Some v => v
  | None => default
  end.

(** [d[k] = v]: a present key keeps its place and takes the new value. *)
Fixpoint dict_set {V : Type} (d : dict V) (k : string) (v : V) : dict V :=
  match d with
  | [] => [(k, v)]
  | (k', v') :: d' =>
      if String.eqb k k' then (k', v) :: d' else (k', v') :: dict_set d' k v
  end.

Definition dict_values {V : Type} (d : dict V) : list V := map snd d.

(** The test mapping: a key to a list of entries, an entry a test or
    [None]; and the alias mapping: a group name to its mnemonics. *)
Definition test_mapping : Type := dict (list (option Test)).
Definition alias_mapping : Type := dict (list string).

(** [Curve.get_alias(alias)]:
    [[k for k, v in (alias or {}).items() if self.mnemonic in v]]. *)
Definition get_alias (c : Curve) (alias : option alias_mapping) : list string :=
  let alias := match alias with Some a => a | None => [] end in
  map fst (filter (fun kv => existsb (String.eqb (mnemonic c)) (snd kv)) alias).

(** [filter(None, this_tests)] *)
Definition filter_none {A : Type} (l : list (option A)) : list A :=
  flat_map (fun o => match o with Some t => [t] | None => [] end) l.

(** One step of the dict comprehension: the entry [test.__name__:
    test(self)]. *)
Definition record_result (c : Curve) (d : dict value) (t : Test) : dict value :=
  dict_set d (test_name t) (test_fn t c).

(** [{test.__name__: test(self) for test in this_tests}] *)
Definition run_tests (c : Curve) (this_tests : list Test) : dict value :=
  fold_left (record_result c) this_tests [].

(** The tests gathered by [quality], [qflag] and [qflags] alike, before
    the filter. *)
Definition gathered (c : Curve) (tests : test_mapping)
  (alias : option alias_mapping) : list (option Test) :=
  get_or tests "each" [] ++ get_or tests "Each" [] ++ get_or tests "EACH" []
  ++ get_or tests (mnemonic c) []
  ++ Utils.flatten_list (map (dict_get tests) (get_alias c alias)).

(** [Curve.quality(tests, alias)] *)
Definition quality (c : Curve) (tests : test_mapping)
  (alias : option alias_mapping) : dict value :=
  let this_tests :=
    get_or tests "each" [] ++ get_or tests "Each" [] ++ get_or tests "EACH" []
    ++ get_or tests (mnemonic c) []
    ++ Utils.flatten_list (map (dict_get tests) (get_alias c alias)) in
  let this_tests := filter_none this_tests in
  let this_tests :=
    match dict_get tests (mnemonic c) with
    | Some [] => []
    | _ => this_tests
    end in
  run_tests c this_tests.

(** [Curve.qflag(tests, alias)] *)
Definition qflag (c : Curve) (tests : test_mapping)
  (alias : option alias_mapping) : dict value :=
  let this_tests :=
    get_or tests "each" [] ++ get_or tests "Each" [] ++ get_or tests "EACH" []
    ++ get_or tests (mnemonic c) []
    ++ Utils.flatten_list (map (dict_get tests) (get_alias c alias)) in
  let this_tests := filter_none this_tests in
  run_tests c this_tests.

(** [Curve.qflags(tests, alias)] *)
Definition qflags (c : Curve) (tests : test_mapping)
  (alias : option alias_mapping) : dict value :=
  let this_tests :=
    get_or tests "each" [] ++ get_or tests "Each" [] ++ get_or tests "EACH" []
    ++ get_or tests (mnemonic c) []
    ++ Utils.flatten_list (map (dict_get tests) (get_alias c alias)) in
  let this_tests := filter_none this_tests in
  run_tests c this_tests.

(** [Curve.quality_score(tests, alias)]: an empty view of results is falsy. *)
Definition quality_score (c : Curve) (tests : test_mapping)
  (alias : option alias_mapping) : Q :=
  let results := dict_values (quality c tests alias) in
  match results with
  | [] => -1
  | _ => Np.sum (map num_of results) / Np.of_nat (length results)
  end.

(* ------------------------------------------------------------------ *)
(** *** Blocking *)

(** The [cutoffs] argument: "a single number, or an array-like". *)
Inductive cutoffs_arg : Type :=
| Cutoff (q : Q)
| Cutoffs (l : list Q).

(** The cutoffs [block] digitizes with: its three opening conditionals. *)
Definition block_cutoffs (c : Curve) (cutoffs : option cutoffs_arg)
  (values : option (list Q)) (n_bins : Z) : res cutoffs_arg :=
  let cutoffs :=
    match values, cutoffs with
    | Some vs, None => Some (Cutoffs (tl vs))
    | _, _ => cutoffs
    end in
  let cutoffs :=
    match cutoffs with
    | None =>
        if (n_bins =? 0)%Z then Some (Cutoff (Np.mean (samples c))) else None
    | Some _ => cutoffs
    end in
  match cutoffs with
  | None =>
      (* past the second conditional, [cutoffs is None] has [n_bins != 0] *)
      mi <- Np.amin (samples c) ;;
      ma <- Np.amax (samples c) ;;
      l <- Np.linspace_Z mi ma (n_bins + 1) ;;
      Ok (Cutoffs (all_but_last l))
  | Some cs => Ok cs
  end.

(** "To use cutoff as a list", and on a [ValueError] as "just a number":
    a scalar fails the first call and is wrapped; a list that fails the
    first call fails the second, nested, as well. *)
Definition block_digitize (c : Curve) (cutoffs : cutoffs_arg) (right : bool)
  : res (list Z) :=
  match cutoffs with
  | Cutoffs l => Np.digitize (samples c) l right
  | Cutoff q => Np.digitize (samples c) [q] right
  end.

(** [zip(tops[:-1], tops[1:])] *)
Definition spans (tops : list nat) : list (nat * nat) :=
  combine (all_but_last tops) (tl tops).

(** The reducing loop of [block] and the statement after it.  The loop
    variable [base] is unbound until the loop body has run once: reading it
    then is a [NameError]. *)
Definition reduce_zones (f : list Q -> Q) (self data : list Q)
  (tops : list nat) : res (list Q) :=
  let '(data, base) :=
    fold_left
      (fun (st : list Q * option nat) (tb : nat * nat) =>
         let '(top, base) := tb in
         (fill_slice (fst st) top base (f (slice self top base)), Some base))
      (spans tops) (data, None) in
  match base with
  | None => Raise NameError
  | Some base => Ok (fill_from data base (f (slice_from self base)))
  end.

(** The loop of [block] that maps zones to [values], and the statement
    after it, whose right-hand side is evaluated before [base] is read. *)
Definition map_zones (values : list Q) (data : list Q)
  (tops : list nat) (vals : list Q) : res (list Q) :=
  st <- fold_left
          (fun (st : res (list Q * option nat)) (tbv : nat * nat * Q) =>
             st <- st ;;
             let '(top, base, val) := tbv in
             v <- getitem values (int val) ;;
             Ok (fill_slice (fst st) top base v, Some base))
          (combine (spans tops) (all_but_last vals)) (Ok (data, None)) ;;
  last_val <- getitem vals (-1) ;;
  v <- getitem values (int last_val) ;;
  match snd st with
  | None => Raise NameError
  | Some base => Ok (fill_from (fst st) base v)
  end.

(** [Curve.block(cutoffs, values, n_bins, right, function)].  The reducer
    [f = function or utils.null] is called in the branch without [values]
    only, where [function] is set. *)
Definition block (c : Curve) (cutoffs : option cutoffs_arg)
  (values : option (list Q)) (n_bins : Z) (right : bool)
  (function : option (list Q -> Q)) : res Curve :=
  cutoffs <- block_cutoffs c cutoffs values n_bins ;;
  zones <- block_digitize c cutoffs right ;;
  let data := map inject_Z zones in
  match function, values with
  | None, None => Ok (with_samples c data)
  | Some f, None =>
      let '(tops, vals) := Utils.find_edges data in
      data <- reduce_zones f (samples c) data tops ;;
      Ok (with_samples c data)
  | _, Some values =>
      let '(tops, vals) := Utils.find_edges data in
      data <- map_zones values data tops vals ;;
      Ok (with_samples c data)
  end.


(* ================================================================== *)
(** ** The sample count of [to_basis] on binary64 floats

    [to_basis] sizes its output by [ceil((new_stop - new_start) / new_step)],
    a quotient that rounding can push above the integer it equals in exact
    arithmetic.  The geometry that feeds it is transcribed here on IEEE
    binary64 numbers, the float type of Python and numpy. *)

Module Binary64.

Local Open Scope float_scope.

(** [float(i)] for an integer [i]. *)
Definition of_Z (i : Z) : float :=
  if (i <? 0)%Z then - PrimFloat.of_uint63 (Uint63.of_Z (- i))
  else PrimFloat.of_uint63 (Uint63.of_Z i).

(** [int(np.ceil(x))]; [None] on NaN and the infinities, where [int]
    raises. *)
Definition ceil (x : float) : option Z :=
  match Prim2SF x with
  | S754_zero _ => Some 0%Z
  | S754_finite s m e =>
      let m := if s then Zneg m else Zpos m in
      Some (if (0 <=? e)%Z then m * 2 ^ e else - (- m / 2 ^ (- e)))%Z
  | _ => None
  end.

(** [Curve.stop] *)
Definition stop (start step : float) (n : nat) : float :=
  start + of_Z (Z.of_nat n - 1) * step.

Definition iota (num : nat) : list float :=
  map (fun i => of_Z (Z.of_nat i)) (seq 0 num).

Fixpoint set_last (y : list float) (v : float) : list float :=
  match y with
  | [] => []
  | [_] => [v]
  | x :: y' => x :: set_last y' v
  end.

(** [np.linspace(start, stop, num, endpoint=True)] *)
Definition linspace (start stop : float) (num : nat) : list float :=
  let div := (Z.of_nat num - 1)%Z in
  let delta := stop - start in
  let y := iota num in
  let y :=
    if (0 <? div)%Z then
      let step := delta / of_Z div in
      if PrimFloat.eqb step 0
      then map (fun v => v / of_Z div * delta) y
      else map (fun v => v * step) y
    else map (fun v => v * delta) y in
  let y := map (fun v => v + start) y in
  if (1 <? num)%nat then set_last y stop else y.

(** [Curve.basis] *)
Definition basis (start step : float) (n : nat) : list float :=
  linspace start (stop start step n) n.

(** The length of the basis that [to_basis(basis=b)] resamples onto:
    [int(np.ceil((b[-1] - b[0]) / (b[1] - b[0]))) + 1]. *)
Definition to_basis_count (b : list float) : option Z :=
  match b with
  | b0 :: b1 :: _ =>
      match ceil ((last b 0 - b0) / (b1 - b0)) with
      | Some steps => Some (steps + 1)%Z
      | None => None
      end
  | _ => None
  end.

End Binary64.


(* ================================================================== *)
(** ** More of the class: construction, slicing, windows *)

(** [Curve.__new__(cls, data, basis, params)] with the full set of
    attributes in [params], as every call inside the class passes them
    ([params = self.__dict__.copy()]).  A basis that begins downward is
    flipped before its first two entries give [start] and [step]; the data
    stay as they are. *)
Definition __new__ (data : list Q) (basis_ : option (list Q))
  (params : Curve) : res Curve :=
  match basis_ with
  | None => Ok (with_samples params data)
  | Some b =>
      b0 <- getitem b 0 ;;
      b1 <- getitem b 1 ;;
      let b := if Np.Qltb b1 b0 then rev b else b in
      new_start <- getitem b 0 ;;
      f1 <- getitem b 1 ;;
      f0 <- getitem b 0 ;;
      Ok (mkCurve data new_start (f1 - f0) (mnemonic params) (units params)
                  (run params) (null params) (service_company params)
                  (date params) (code params) (basis_units params))
  end.

(** A slice object [slice(start, stop, step)]. *)
Record py_slice : Type := mkSlice {
  sl_start : option Z;
  sl_stop : option Z;
  sl_step : option Z
}.

(** [slice.indices(n)]: the step defaults to [1] and may not be [0];
    absent bounds are the ends of the walk, negative ones count from the
    end, and all are clipped to the array. *)
Definition slice_indices (items : py_slice) (n : Z) : res (Z * Z * Z) :=
  let k := match sl_step items with Some k => k | None => 1%Z end in
  if (k =? 0)%Z then Raise ValueError
  else
    let lower := if (k <? 0)%Z then (-1)%Z else 0%Z in
    let upper := if (k <? 0)%Z then (n - 1)%Z else n in
    let clip := fun v : Z =>
      if (v <? 0)%Z then Z.max (v + n) lower else Z.min v upper in
    let a := match sl_start items with
             | Some v => clip v
             | None => if (k <? 0)%Z then upper else lower
             end in
    let b := match sl_stop items with
             | Some v => clip v
             | None => if (k <? 0)%Z then lower else upper
             end in
    Ok (a, b, k).

(** The indices [range(a, b, k)] walks. *)
Definition slice_positions (a b k : Z) : list nat :=
  let len :=
    if (0 <? k)%Z
    then if (a <? b)%Z then ((b - a - 1) / k + 1)%Z else 0%Z
    else if (b <? a)%Z then ((a - b - 1) / (- k) + 1)%Z else 0%Z in
  map (fun j => Z.to_nat (a + Z.of_nat j * k)) (seq 0 (Z.to_nat len)).

(** The entries of [a] at the given indices. *)
Definition take {A : Type} (a : list A) (positions : list nat) : list A :=
  flat_map (fun i => match nth_error a i with Some x => [x] | None => [] end)
           positions.

(** What slicing a curve gives: a curve, an exception, or [NoGeometry] for
    the curve of one sample, whose copy carries no attributes
    ([__array_finalize__] returns early on [obj.size == 1]): reading its
    [start] or [step] is an [AttributeError], and a slice that reads
    neither is returned without them. *)
Inductive slicing : Type :=
| Sliced (c : Curve)
| SliceRaises (e : exn)
| NoGeometry.

(** [Curve.__getitem__(items)] for a slice: the copy takes the basis point
    at a positive [items.start] as its start and multiplies its step by
    [items.step]; the samples are then sliced as numpy slices an array. *)
Definition getitem_slice (c : Curve) (items : py_slice) : slicing :=
  if (shape0 c =? 1)%nat then NoGeometry
  else
    let new_start :=
      match sl_start items with
      | Some a => if (0 <? a)%Z then getitem (basis c) a else Ok (start c)
      | None => Ok (start c)
      end in
    match new_start with
    | Ok new_start =>
        let new_step :=
          match sl_step items with
          | Some k => step c * inject_Z k
          | None => step c
          end in
        match slice_indices items (Z.of_nat (shape0 c)) with
        | Ok (a, b, k) =>
            Sliced (mkCurve (take (samples c) (slice_positions a b k))
                            new_start new_step (mnemonic c) (units c) (run c)
                            (null c) (service_company c) (date c) (code c)
                            (basis_units c))
        | Raise e => SliceRaises e
        | Unmodelled => NoGeometry
        end
    | Raise e => SliceRaises e
    | Unmodelled => NoGeometry
    end.



(** *** Rolling windows *)

(** A float of an array that may hold NaN, [None] here; [np.nan_to_num]
    puts zero in its place. *)
Definition nan_to_num (x : option Q) : Q :=
  match x with Some v => v | None => 0 end.

(** The entry [k] places from the start of a contiguous buffer.
    [as_strided] does not keep its views inside the buffer: what a read
    outside it returns has no value here. *)
Definition at_offset (buffer : list Q) (k : Z) : res Q :=
  if ((0 <=? k)%Z && (k <? Z.of_nat (length buffer))%Z)%bool then
    match nth_error buffer (Z.to_nat k) with
    | Some x => Ok x
    | None => Unmodelled
    end
  else Unmodelled.

(** [Curve._rolling_window(window_length, func1d, step)] with the default
    [return_rolled=False], on an array [self] whose successive entries lie
    [stride] entries apart in memory ([self.strides[0]] in units of the
    item size: [1] for a contiguous curve, [k] for a curve sliced with the
    step [k]).  The window length is forced odd; NaN is replaced by zero
    and the result padded by [step * window_length // 2] copies of each
    edge entry into a new, contiguous array ([np.pad] refuses a negative
    width, and to extend an empty array); [as_strided] lays the strides of
    [self] over that array, so that entry [j] of window [i] is the padded
    entry at [(i + j * step) * stride]; [func1d] is applied to each window,
    and the result is NaN wherever [self] is. *)
Definition _rolling_window (stride : Z) (self : list (option Q))
  (window_length : Z) (func1d : list Q -> option Q) (step_ : Z)
  : res (list (option Q)) :=
  let window_length :=
    if (window_length mod 2 =? 0)%Z then (window_length + 1)%Z
    else window_length in
  let data := map nan_to_num self in
  let pad := (step_ * window_length / 2)%Z in
  if (pad <? 0)%Z then Raise ValueError
  else
    match data with
    | [] => Raise ValueError
    | first :: _ =>
        if (window_length <? 0)%Z then Raise ValueError
        else
          let data := repeat first (Z.to_nat pad) ++ data
                      ++ repeat (last data 0) (Z.to_nat pad) in
          rolled <-
            traverse
              (fun i =>
                 traverse
                   (fun j =>
                      at_offset data
                        ((Z.of_nat i + Z.of_nat j * step_) * stride)%Z)
                   (seq 0 (Z.to_nat window_length)))
              (seq 0 (length self)) ;;
          Ok (map (fun xr => match fst xr with
                             | None => None
                             | Some _ => func1d (snd xr)
                             end)
                  (combine self rolled))
    end.

(** *** Closed forms of the zone loops of [block] *)

(** Spans that follow one another from [t0] to [tm]:
    [(t0, t1), (t1, t2), ..., (_, tm)]. *)
Inductive chain : nat -> list (nat * nat) -> nat -> Prop :=
| chain_nil (t : nat) : chain t [] t
| chain_cons (t t' tm : nat) (sp : list (nat * nat)) :
    (t <= t')%nat -> chain t' sp tm -> chain t ((t, t') :: sp) tm.

(** Every zone of a curve of [n] samples, the final one included: the
    spans between successive tops, and from the last top to the end. *)
Definition zones_of (tops : list nat) (n : nat) : list (nat * nat) :=
  spans (tops ++ [n]).

(** Each span filled with the reduction of the samples it covers. *)
Definition reduced (f : list Q -> Q) (self : list Q)
  (zones : list (nat * nat)) : list Q :=
  flat_map (fun tb => repeat (f (slice self (fst tb) (snd tb)))
                             (snd tb - fst tb)) zones.

(** The triples [(top, base, val)] the loop over [values] walks, for the
    first zone [(t, v)] and the edges [E] after it, and the zone left for
    the statement after the loop. *)
Fixpoint body_segs (t : nat) (v : Q) (E : list (nat * Q))
  : list (nat * nat * Q) :=
  match E with
  | [] => []
  | (t', v') :: E' => (t, t', v) :: body_segs t' v' E'
  end.

Fixpoint last_seg (t : nat) (v : Q) (E : list (nat * Q)) : nat * Q :=
  match E with
  | [] => (t, v)
  | (t', v') :: E' => last_seg t' v' E'
  end.

(** Tops in order, from [t] on and up to [n]. *)
Fixpoint ordered (t : nat) (E : list (nat * Q)) (n : nat) : Prop :=
  match E with
  | [] => (t <= n)%nat
  | (t', _) :: E' => (t <= t')%nat /\ ordered t' E' n
  end.

(** Each span filled with what [paint] makes of its zone value. *)
Definition painted (paint : Q -> Q) (segs : list (nat * nat * Q)) : list Q :=
  flat_map (fun s => repeat (paint (snd s)) (snd (fst s) - fst (fst s))) segs.

(* ================================================================== *)
(** ** Predicates of the statements *)

(** Cutoffs of which the entry at index [j] (counted from [j0]) lies in
    [(j, j+1]], or in [[j, j+1)] under [right]: the cutoffs [1, 2, ..., k]
    are such, and so are [0, 1, ..., k-1] under [right]. *)
Fixpoint unit_spaced (right : bool) (j0 : nat) (cs : list Q) : bool :=
  match cs with
  | [] => true
  | x :: cs' =>
      (if right
       then Qle_bool (Np.of_nat j0) x && Np.Qltb x (Np.of_nat (S j0))
       else Np.Qltb (Np.of_nat j0) x && Qle_bool x (Np.of_nat (S j0)))
      && unit_spaced right (S j0) cs'
  end.

(** The order of [(x, y)] pairs by their [x], ascending and descending. *)
Definition ltk (p q : Q * Q) : Prop := fst p < fst q.
Definition gtk (p q : Q * Q) : Prop := fst q < fst p.

(** The tests [quality] runs: gathered, filtered, and dropped altogether
    when the mnemonic is registered with an empty list. *)
Definition resolved (c : Curve) (tests : test_mapping)
  (alias : option alias_mapping) : list Test :=
  match dict_get tests (mnemonic c) with
  | Some [] => []
  | _ => filter_none (gathered c tests alias)
  end.

(** From the words of the specification: the keys whose tests apply to a
    curve are the wildcard keys, the mnemonic of the curve, and the alias
    groups that list the mnemonic. *)
Definition applies_to (c : Curve) (alias : option alias_mapping)
  (key : string) : Prop :=
  key = "each"%string \/ key = "Each"%string \/ key = "EACH"%string \/
  key = mnemonic c \/
  exists groups ms, alias = Some groups /\ In (key, ms) groups /\
                    In (mnemonic c) ms.

(** A test registered, in the test mapping, under a key that applies. *)
Definition registered_for (c : Curve) (tests : test_mapping)
  (alias : option alias_mapping) (t : Test) : Prop :=
  exists key ts,
    dict_get tests key = Some ts /\ In (Some t) ts /\ applies_to c alias key.

(** The number of entries of a result mapping that are [True]. *)
Definition passes (results : list value) : nat :=
  length (filter (fun v => match v with VBool true => true | _ => false end)
                 results).

(* ================================================================== *)
(** * Properties *)

(** ** Basis geometry *)

Section LinspaceFacts.

Lemma iota_length (n : nat) : length (Np.iota n) = n.
Proof. unfold Np.iota. now rewrite length_map, length_seq. Qed.

Lemma set_last_length (y : list Q) (v : Q) :
  length (Np.set_last y v) = length y.
Proof.
  induction y as [|x y IH]; [reflexivity|].
  destruct y as [|x' y']; [reflexivity|].
  change (Np.set_last (x :: x' :: y') v) with (x :: Np.set_last (x' :: y') v).
  cbn [length]. f_equal. exact IH.
Qed.

Lemma linspace_length (s e : Q) (n : nat) : length (Np.linspace s e n) = n.
Proof.
  unfold Np.linspace.
  destruct (1 <? n)%nat; [rewrite set_last_length|];
    destruct (0 <? Z.of_nat n - 1)%Z; try destruct (Qeq_bool _ 0);
    now rewrite !length_map, iota_length.
Qed.

Lemma iota_nth (n i : nat) :
  (i < n)%nat -> nth_error (Np.iota n) i = Some (Np.of_nat i).
Proof.
  intros Hi. unfold Np.iota.
  rewrite nth_error_map, nth_error_seq.
  destruct (Nat.ltb_spec i n); [reflexivity | lia].
Qed.

Lemma set_last_nth_last (y : list Q) (v : Q) :
  y <> [] -> nth_error (Np.set_last y v) (length y - 1) = Some v.
Proof.
  induction y as [|x y IH]; [congruence|]. intros _.
  destruct y as [|x' y']; [reflexivity|].
  change (Np.set_last (x :: x' :: y') v) with (x :: Np.set_last (x' :: y') v).
  replace (length (x :: x' :: y') - 1)%nat with (S (length (x' :: y') - 1))
    by (cbn [length]; lia).
  cbn [nth_error]. apply IH. congruence.
Qed.

Lemma set_last_nth_before (y : list Q) (v : Q) (i : nat) :
  (S i < length y)%nat -> nth_error (Np.set_last y v) i = nth_error y i.
Proof.
  revert i. induction y as [|x y IH]; intros i Hi; [reflexivity|].
  destruct y as [|x' y']; [cbn [length] in Hi; lia|].
  change (Np.set_last (x :: x' :: y') v) with (x :: Np.set_last (x' :: y') v).
  destruct i as [|i]; [reflexivity|].
  cbn [nth_error]. apply IH. cbn [length] in *. lia.
Qed.

Lemma of_nat_pred (n : nat) :
  (1 <= n)%nat -> inject_Z (Z.of_nat n - 1) = Np.of_nat (n - 1).
Proof.
  intros Hn. unfold Np.of_nat. f_equal. lia.
Qed.

Lemma of_nat_pos (n : nat) : (1 <= n)%nat -> 0 < Np.of_nat n.
Proof.
  intros Hn. unfold Np.of_nat.
  change 0 with (inject_Z 0). rewrite <- Zlt_Qlt. lia.
Qed.

(** Every entry of [linspace] lies on the line through [start] with slope
    [(stop - start) / (num - 1)]. *)
Lemma linspace_nth (s e : Q) (n i : nat) :
  (i < n)%nat ->
  exists v, nth_error (Np.linspace s e n) i = Some v /\
            v == s + Np.of_nat i * ((e - s) / Np.of_nat (n - 1)).
Proof.
  intros Hi. unfold Np.linspace.
  destruct (Nat.ltb_spec 1 n) as [Hn|Hn].
  - (* at least two points *)
    assert (Hdiv : (0 <? Z.of_nat n - 1)%Z = true) by (apply Z.ltb_lt; lia).
    rewrite Hdiv, of_nat_pred by lia.
    assert (Hpos : 0 < Np.of_nat (n - 1)) by (apply of_nat_pos; lia).
    set (y := map (fun v => v + s)
                  (if Qeq_bool ((e - s) / Np.of_nat (n - 1)) 0
                   then map (fun v => v / Np.of_nat (n - 1) * (e - s))
                            (Np.iota n)
                   else map (fun v => v * ((e - s) / Np.of_nat (n - 1)))
                            (Np.iota n))).
    assert (Hlen : length y = n).
    { unfold y. destruct (Qeq_bool _ 0);
        now rewrite !length_map, iota_length. }
    destruct (Nat.eq_dec i (n - 1)) as [->|Hne].
    + exists e. split.
      * replace (n - 1)%nat with (length y - 1)%nat by lia.
        apply set_last_nth_last.
        intros ->. cbn in Hlen. lia.
      * field. intros H0. rewrite H0 in Hpos. now apply Qlt_irrefl in Hpos.
    + rewrite set_last_nth_before by lia. unfold y.
      destruct (Qeq_bool ((e - s) / Np.of_nat (n - 1)) 0) eqn:Hz;
        rewrite !nth_error_map, iota_nth by lia; cbn [option_map];
        eexists; split; try reflexivity.
      * apply Qeq_bool_iff in Hz. rewrite Hz.
        assert (He : e - s == 0).
        { rewrite <- (Qmult_div_r (e - s) (Np.of_nat (n - 1))), Hz.
          - ring.
          - intros H0. rewrite H0 in Hpos. now apply Qlt_irrefl in Hpos. }
        rewrite He. ring.
      * ring.
  - (* at most one point *)
    assert (n = 1)%nat as -> by lia. assert (i = 0)%nat as -> by lia.
    exists (Np.of_nat 0 * (e - s) + s). split; [reflexivity|].
    change (Np.of_nat 0) with 0. rewrite !Qmult_0_l. ring.
Qed.


End LinspaceFacts.

(** C2.  For a curve of [N >= 1] samples with start [s] and step [p]: the
    basis has [N] entries, [basis[0] == s], [basis[N-1]] (which is
    [basis[-1]]) equals [stop], and [stop == s + (N-1) * p]. *)
Theorem basis_geometry (c : Curve) :
  (1 <= shape0 c)%nat ->
  length (basis c) = shape0 c /\
  (exists b0, getitem (basis c) 0 = Ok b0 /\ b0 == start c) /\
  (exists bN, getitem (basis c) (Z.of_nat (shape0 c) - 1) = Ok bN /\
              getitem (basis c) (-1) = Ok bN /\ bN == stop c) /\
  stop c == start c + (Np.of_nat (shape0 c) - 1) * step c.
Proof.
  intros HN.
  assert (Hlen : length (basis c) = shape0 c) by apply linspace_length.
  split; [exact Hlen|]. split; [|split].
  - destruct (linspace_nth (start c) (stop c) (shape0 c) 0 ltac:(lia))
      as (v & Hv & Hq).
    exists v. split.
    + unfold getitem. rewrite Hlen. cbn [Z.ltb Z.compare].
      replace ((0 <=? 0)%Z && (0 <? Z.of_nat (shape0 c))%Z)%bool with true
        by (symmetry; apply andb_true_intro; split;
            [reflexivity | apply Z.ltb_lt; lia]).
      change (Z.to_nat 0) with O. fold (basis c) in Hv. now rewrite Hv.
    + rewrite Hq. unfold Np.of_nat. cbn. ring.
  - destruct (linspace_nth (start c) (stop c) (shape0 c) (shape0 c - 1)
                ltac:(lia)) as (v & Hv & Hq).
    fold (basis c) in Hv.
    assert (Hget : getitem (basis c) (Z.of_nat (shape0 c) - 1) = Ok v).
    { unfold getitem. rewrite Hlen.
      replace (Z.of_nat (shape0 c) - 1 <? 0)%Z with false
        by (symmetry; apply Z.ltb_ge; lia).
      replace ((0 <=? Z.of_nat (shape0 c) - 1)%Z
               && (Z.of_nat (shape0 c) - 1 <? Z.of_nat (shape0 c))%Z)%bool
        with true
        by (symmetry; apply andb_true_intro; split;
            [apply Z.leb_le | apply Z.ltb_lt]; lia).
      replace (Z.to_nat (Z.of_nat (shape0 c) - 1)) with (shape0 c - 1)%nat
        by lia.
      now rewrite Hv. }
    exists v. split; [exact Hget|]. split.
    + rewrite <- Hget. unfold getitem. rewrite Hlen.
      change (-1 <? 0)%Z with true. cbv beta iota zeta.
      replace (Z.of_nat (shape0 c) + -1)%Z with (Z.of_nat (shape0 c) - 1)%Z
        by lia.
      replace (Z.of_nat (shape0 c) - 1 <? 0)%Z with false
        by (symmetry; apply Z.ltb_ge; lia).
      reflexivity.
    + rewrite Hq. destruct (Nat.eq_dec (shape0 c) 1) as [H1|H1].
      * unfold stop. rewrite H1. cbn. unfold Np.of_nat. cbn. ring.
      * assert (Hpos : 0 < Np.of_nat (shape0 c - 1)) by (apply of_nat_pos; lia).
        field. intros H0. rewrite H0 in Hpos. now apply Qlt_irrefl in Hpos.
  - unfold stop. rewrite of_nat_pred by lia.
    assert (Heq : Np.of_nat (shape0 c - 1) == Np.of_nat (shape0 c) - 1).
    { rewrite <- of_nat_pred by lia. unfold Np.of_nat, Z.sub.
      rewrite inject_Z_plus. reflexivity. }
    rewrite Heq. reflexivity.
Qed.

(** The geometry of the spec's example: samples [1..5] from 0 by 1. *)
Lemma basis_geometry_witness :
  let c := mkCurve [1; 2; 3; 4; 5] 0 1 "GR" None 0%Z 0 None None None None in
  length (basis c) = shape0 c /\
  (exists b0, getitem (basis c) 0 = Ok b0 /\ b0 == start c) /\
  (exists bN, getitem (basis c) (Z.of_nat (shape0 c) - 1) = Ok bN /\
              getitem (basis c) (-1) = Ok bN /\ bN == stop c) /\
  stop c == start c + (Np.of_nat (shape0 c) - 1) * step c.
Proof.
  intro c. apply (basis_geometry c). unfold c, shape0. cbn. lia.
Defined.

(* ------------------------------------------------------------------ *)
(** ** Point reads at and beyond the stop *)

Section ReadAtEdge.

Lemma searchsorted_all (strict : bool) (a : list Q) (v : Q) :
  Forall (fun x => (if strict then Np.Qltb x v else Qle_bool x v) = true) a ->
  Np.searchsorted strict a v = length a.
Proof.
  induction 1 as [|x a Hx _ IH]; [reflexivity|].
  cbn [Np.searchsorted length]. now rewrite Hx, IH.
Qed.

Lemma getitem_in_range {A : Type} (a : list A) (i : nat) :
  (i < length a)%nat -> exists x, getitem a (Z.of_nat i) = Ok x.
Proof.
  intros Hi. unfold getitem.
  replace (Z.of_nat i <? 0)%Z with false by (symmetry; apply Z.ltb_ge; lia).
  replace ((0 <=? Z.of_nat i)%Z && (Z.of_nat i <? Z.of_nat (length a))%Z)%bool
    with true
    by (symmetry; apply andb_true_intro; split;
        [apply Z.leb_le | apply Z.ltb_lt]; lia).
  rewrite Nat2Z.id.
  destruct (nth_error a i) as [x|] eqn:Hx; [now exists x|].
  apply nth_error_None in Hx. lia.
Qed.

Lemma getitem_at_length {A : Type} (a : list A) :
  getitem a (Z.of_nat (length a)) = Raise IndexError.
Proof.
  unfold getitem.
  replace (Z.of_nat (length a) <? 0)%Z with false
    by (symmetry; apply Z.ltb_ge; lia).
  replace (Z.of_nat (length a) <? Z.of_nat (length a))%Z with false
    by (symmetry; apply Z.ltb_ge; lia).
  now rewrite andb_false_r.
Qed.

(** With a non-negative step no basis point lies beyond the stop. *)
Lemma basis_le_stop (c : Curve) :
  0 <= step c -> Forall (fun x => x <= stop c) (basis c).
Proof.
  intros Hstep. apply Forall_forall. intros x Hx.
  apply In_nth_error in Hx. destruct Hx as [i Hi].
  assert (Hlt : (i < shape0 c)%nat).
  { rewrite <- (linspace_length (start c) (stop c)).
    apply nth_error_Some. fold (basis c). congruence. }
  destruct (linspace_nth (start c) (stop c) (shape0 c) i Hlt) as (v & Hv & Hq).
  fold (basis c) in Hv. rewrite Hi in Hv. injection Hv as <-.
  rewrite Hq. unfold stop. rewrite !of_nat_pred by lia.
  set (m := Np.of_nat (shape0 c - 1)).
  assert (Him : Np.of_nat i <= m).
  { unfold m, Np.of_nat. rewrite <- Zle_Qle. lia. }
  assert (Hi0 : 0 <= Np.of_nat i).
  { unfold Np.of_nat. change 0 with (inject_Z 0). rewrite <- Zle_Qle. lia. }
  destruct (Qeq_dec m 0) as [Hm|Hm].
  - assert (Hi' : Np.of_nat i == 0) by (apply Qle_antisym; [now rewrite <- Hm|easy]).
    rewrite Hi', Hm. ring_simplify. apply Qle_refl.
  - setoid_replace ((start c + m * step c - start c) / m) with (step c)
      by (field; exact Hm).
    apply Qplus_le_r. apply Qmult_le_compat_r; assumption.
Qed.

End ReadAtEdge.

(** C1.  On every curve with at least one sample and a non-negative step,
    a linear read at a depth at or beyond the stop raises [IndexError]: the
    successor sample [self[i+1]] of the last index is read unguarded.  In
    particular the read at [stop] does not return the last sample. *)
Theorem read_at_stop_raises (c : Curve) (d : Q) :
  (1 <= shape0 c)%nat -> 0 <= step c -> stop c <= d ->
  read_at c (Depth d) Linear false = Raise IndexError.
Proof.
  intros HN Hstep Hd.
  assert (Hall : Np.searchsorted false (basis c) d = shape0 c).
  { rewrite <- (linspace_length (start c) (stop c) (shape0 c)).
    apply searchsorted_all.
    eapply Forall_impl; [|apply (basis_le_stop c Hstep)].
    intros x Hx. apply Qle_bool_iff. now apply Qle_trans with (stop c). }
  unfold read_at, _read_at, Utils.find_previous. rewrite Hall.
  destruct (shape0 c) as [|n] eqn:HS; [lia|].
  assert (Hnone : nth_error (basis c) (S n) = None).
  { apply nth_error_None. unfold basis. rewrite linspace_length. lia. }
  rewrite Hnone. cbv beta iota zeta.
  destruct (getitem_in_range (samples c) n) as [u Hu];
    [unfold shape0 in HS; lia|].
  rewrite Hu. cbn [bind].
  replace (Z.of_nat n + 1)%Z with (Z.of_nat (length (samples c)))
    by (unfold shape0 in HS; lia).
  now rewrite getitem_at_length.
Qed.

(** Reading the three-sample curve from 0 by 1 at its stop, 2. *)
Lemma read_at_stop_raises_witness :
  read_at (mkCurve [1; 2; 3] 0 1 "GR" None 0%Z 0 None None None None)
          (Depth 2) Linear false = Raise IndexError.
Proof.
  apply read_at_stop_raises; unfold shape0, stop; cbn; [lia | easy | easy].
Defined.

(* ------------------------------------------------------------------ *)
(** ** Blocking a curve that is one zone *)

Section SingleZone.

Lemma edges_from_constant (i : nat) (v : Q) (a : list Q) :
  Forall (eq v) a -> Utils.edges_from i v a = [].
Proof.
  intros Ha. revert i. induction Ha as [|x a <- _ IH]; intros i.
  - reflexivity.
  - cbn [Utils.edges_from]. rewrite Qeq_bool_refl. apply IH.
Qed.

Lemma find_edges_constant (z : Z) (zones : list Z) :
  zones <> [] -> Forall (eq z) zones ->
  Utils.find_edges (map inject_Z zones) = ([O], [inject_Z z]).
Proof.
  intros Hne Hall. destruct zones as [|z0 zs]; [congruence|].
  inversion Hall as [|? ? <- Hzs]; subst.
  cbn [map Utils.find_edges].
  rewrite edges_from_constant; [reflexivity|].
  apply Forall_forall. intros x Hx.
  apply in_map_iff in Hx. destruct Hx as (y & <- & Hy).
  rewrite Forall_forall in Hzs. now rewrite (Hzs y Hy).
Qed.

End SingleZone.

(** C8.  When the digitized curve is a single zone, the reducing loop of
    [block] never runs and the statement for the final zone reads the loop
    variable [base] unbound: [block] with a function raises [NameError],
    and [block] with values raises [NameError] too, unless the lookup in
    [values] has already raised [IndexError]. *)
Theorem block_single_zone_raises (c : Curve) (cutoffs : option cutoffs_arg)
  (values : option (list Q)) (n_bins : Z) (right : bool)
  (function : option (list Q -> Q)) (cs : cutoffs_arg) (zones : list Z)
  (z : Z) :
  block_cutoffs c cutoffs values n_bins = Ok cs ->
  block_digitize c cs right = Ok zones ->
  zones <> [] -> Forall (eq z) zones ->
  function <> None \/ values <> None ->
  block c cutoffs values n_bins right function = Raise NameError \/
  (values <> None /\
   block c cutoffs values n_bins right function = Raise IndexError).
Proof.
  intros Hcs Hzones Hne Hall Hmode. unfold block.
  rewrite Hcs. cbn [bind]. rewrite Hzones. cbn [bind].
  rewrite (find_edges_constant z zones Hne Hall).
  destruct values as [vs|].
  - assert (Hmap : map_zones vs (map inject_Z zones) [O] [inject_Z z]
                   = match getitem vs (int (inject_Z z)) with
                     | Ok _ => Raise NameError
                     | Raise e => Raise e
                     | Unmodelled => Unmodelled
                     end).
    { unfold map_zones, spans, all_but_last. cbn [removelast tl combine fold_left bind].
      change (getitem [inject_Z z] (-1)) with (Ok (inject_Z z) : res Q).
      cbn [bind]. now destruct (getitem vs (int (inject_Z z))). }
    assert (Hget : (exists v, getitem vs (int (inject_Z z)) = Ok v) \/
                   getitem vs (int (inject_Z z)) = Raise IndexError).
    { unfold getitem. destruct (_ && _)%bool; [|now right].
      destruct (nth_error vs _); [left; eauto | now right]. }
    destruct function; rewrite Hmap;
      (destruct Hget as [[v ->]| ->];
       [left; reflexivity | right; split; [congruence | reflexivity]]).
  - destruct function as [f|]; [|destruct Hmode; congruence].
    left. reflexivity.
Qed.

(** Three equal samples below the cutoff 5, reduced by the mean. *)
Lemma block_single_zone_raises_witness :
  block (mkCurve [1; 1; 1] 0 1 "GR" None 0%Z 0 None None None None)
        (Some (Cutoffs [5])) None 0 false (Some Np.mean) = Raise NameError.
Proof.
  destruct (block_single_zone_raises
              (mkCurve [1; 1; 1] 0 1 "GR" None 0%Z 0 None None None None)
              (Some (Cutoffs [5])) None 0 false (Some Np.mean)
              (Cutoffs [5]) [0; 0; 0]%Z 0%Z) as [H|[H _]].
  - reflexivity.
  - reflexivity.
  - discriminate.
  - repeat constructor.
  - left. discriminate.
  - exact H.
  - exfalso. apply H. reflexivity.
Defined.

(* ------------------------------------------------------------------ *)
(** ** Resampling a curve onto its own basis *)

(** A curve of one sample has a basis of one point, and [to_basis] reads
    [basis[1]] for the new step. *)
Lemma to_basis_single_sample (c : Curve) (undefined : option Q) :
  shape0 c = 1%nat ->
  to_basis c (Some (basis c)) None None None undefined = Raise IndexError.
Proof.
  intros H1. unfold to_basis, basis. rewrite H1.
  change (Np.linspace (start c) (stop c) 1)
    with [Np.of_nat 0 * (stop c - start c) + start c].
  reflexivity.
Qed.

(** C3.  Resampling onto the curve's own basis is not the identity on two
    curves: the curve of one sample, where [to_basis] raises [IndexError],
    and, on binary64 floats, the 28-sample curve from 0.0 by 0.1524, for
    which the quotient [(new_stop - new_start) / new_step] rounds above 27
    and the resampled curve gets 29 samples. *)
Theorem to_basis_identity_fails :
  (let c := mkCurve [7] 0 1 "GR" None 0%Z 0 None None None None in
   to_basis c (Some (basis c)) None None None None = Raise IndexError) /\
  Binary64.to_basis_count (Binary64.basis 0 0x1.381d7dbf487fdp-3 28)
  = Some 29%Z.
Proof.
  split.
  - intro c. now apply to_basis_single_sample.
  - vm_compute. reflexivity.
Qed.

(* ------------------------------------------------------------------ *)
(** ** Blocking twice with the same cutoffs *)

Section BlockTwice.

Lemma unit_spaced_ascending (right : bool) (j0 : nat) (cs : list Q) :
  unit_spaced right j0 cs = true -> Np.ascending cs = true.
Proof.
  revert j0. induction cs as [|x cs IH]; intros j0 H; [reflexivity|].
  destruct cs as [|y cs']; [reflexivity|].
  cbn [unit_spaced] in H.
  apply andb_prop in H. destruct H as [Hx H].
  change (Np.ascending (x :: y :: cs'))
    with (Qle_bool x y && Np.ascending (y :: cs')).
  rewrite (IH (S j0) H), andb_true_r.
  cbn [unit_spaced] in H. apply andb_prop in H. destruct H as [Hy _].
  apply Qle_bool_iff. unfold Np.Qltb in *.
  destruct right; apply andb_prop in Hx, Hy; destruct Hx as [_ Hx], Hy as [Hy _].
  - apply negb_true_iff in Hx. apply Qle_bool_iff in Hy.
    destruct (Qlt_le_dec x (Np.of_nat (S j0))) as [Hlt|Hge].
    + apply Qlt_le_weak. now apply Qlt_le_trans with (Np.of_nat (S j0)).
    + apply Qle_bool_iff in Hge. congruence.
  - apply Qle_bool_iff in Hx. apply negb_true_iff in Hy.
    destruct (Qlt_le_dec (Np.of_nat (S j0)) y) as [Hlt|Hge].
    + apply Qlt_le_weak. now apply Qle_lt_trans with (Np.of_nat (S j0)).
    + apply Qle_bool_iff in Hge. congruence.
Qed.

Lemma of_nat_le (i j : nat) : (i <= j)%nat -> Np.of_nat i <= Np.of_nat j.
Proof. intros H. unfold Np.of_nat. rewrite <- Zle_Qle. lia. Qed.

(** On unit-spaced cutoffs the zone of the integer [j0 + m] is [m], capped
    by the number of cutoffs. *)
Lemma searchsorted_unit_spaced (right : bool) (cs : list Q) (j0 m : nat) :
  unit_spaced right j0 cs = true ->
  Np.searchsorted right cs (Np.of_nat (j0 + m)) = Nat.min m (length cs).
Proof.
  revert j0 m. induction cs as [|x cs IH]; intros j0 m H.
  - now rewrite Nat.min_0_r.
  - cbn [unit_spaced] in H. apply andb_prop in H. destruct H as [Hx H].
    cbn [Np.searchsorted length]. unfold Np.Qltb in *.
    destruct m as [|m].
    + rewrite Nat.add_0_r.
      destruct right; apply andb_prop in Hx; destruct Hx as [Hlo _].
      * now rewrite Hlo.
      * apply negb_true_iff in Hlo. now rewrite Hlo.
    + assert (Hv : Np.of_nat (S j0) <= Np.of_nat (j0 + S m))
        by (apply of_nat_le; lia).
      replace (j0 + S m)%nat with (S j0 + m)%nat in * by lia.
      destruct right; apply andb_prop in Hx; destruct Hx as [_ Hhi].
      * apply negb_true_iff in Hhi.
        assert (Hlt : x < Np.of_nat (S j0)).
        { destruct (Qlt_le_dec x (Np.of_nat (S j0))) as [?|Hge]; [easy|].
          apply Qle_bool_iff in Hge. congruence. }
        assert (Hf : Qle_bool (Np.of_nat (S j0 + m)) x = false).
        { destruct (Qle_bool (Np.of_nat (S j0 + m)) x) eqn:E; [|easy].
          apply Qle_bool_iff in E. exfalso.
          apply (Qlt_irrefl x).
          apply Qlt_le_trans with (Np.of_nat (S j0)); [easy|].
          now apply Qle_trans with (Np.of_nat (S j0 + m)). }
        rewrite Hf. cbn [negb]. now rewrite (IH (S j0) m H).
      * apply Qle_bool_iff in Hhi.
        assert (Ht : Qle_bool x (Np.of_nat (S j0 + m)) = true).
        { apply Qle_bool_iff. now apply Qle_trans with (Np.of_nat (S j0)). }
        rewrite Ht. now rewrite (IH (S j0) m H).
Qed.

Lemma searchsorted_le_length (strict : bool) (a : list Q) (v : Q) :
  (Np.searchsorted strict a v <= length a)%nat.
Proof.
  induction a as [|x a IH]; cbn [Np.searchsorted length]; [lia|].
  destruct (if strict then Np.Qltb x v else Qle_bool x v); lia.
Qed.

End BlockTwice.

(** C6, the claim as stated fails: with the cutoff 3 the samples [1..5]
    block to the zones [0, 0, 1, 1, 1], and those zones block to
    [0, 0, 0, 0, 0]. *)
Lemma block_twice_differs :
  let c := mkCurve [1; 2; 3; 4; 5] 0 1 "GR" None 0%Z 0 None None None None in
  exists c1 c2,
    block c (Some (Cutoffs [3])) None 0 false None = Ok c1 /\
    block c1 (Some (Cutoffs [3])) None 0 false None = Ok c2 /\
    samples c1 = [0; 0; 1; 1; 1] /\
    samples c2 = [0; 0; 0; 0; 0] /\
    samples c2 <> samples c1.
Proof.
  intro c. eexists. eexists.
  split; [vm_compute; reflexivity|].
  split; [vm_compute; reflexivity|].
  split; [reflexivity|]. split; [reflexivity|]. discriminate.
Qed.

(** C6, amended.  On unit-spaced cutoffs (the entry at index [j] in
    [(j, j+1]], or in [[j, j+1)] under [right]; for instance
    [1, 2, ..., k]) blocking the zone-index curve again with the same
    cutoffs returns that same curve. *)
Theorem block_twice_unit_spaced (c c1 : Curve) (cs : list Q) (n_bins : Z)
  (right : bool) :
  unit_spaced right 0 cs = true ->
  block c (Some (Cutoffs cs)) None n_bins right None = Ok c1 ->
  block c1 (Some (Cutoffs cs)) None n_bins right None = Ok c1.
Proof.
  intros Hcs. unfold block, block_cutoffs, block_digitize. cbn [bind].
  unfold Np.digitize, Np.monotonicity.
  rewrite (unit_spaced_ascending right 0 cs Hcs). cbn [bind].
  intros H. injection H as <-. unfold with_samples.
  cbn [samples start step mnemonic units run null service_company
       date code basis_units].
  do 2 f_equal. rewrite !map_map. apply map_ext. intros v. do 2 f_equal.
  change (inject_Z (Z.of_nat (Np.searchsorted right cs v)))
    with (Np.of_nat (0 + Np.searchsorted right cs v)).
  rewrite (searchsorted_unit_spaced right cs 0 _ Hcs).
  apply Nat.min_l. apply searchsorted_le_length.
Qed.

(** The samples [1..5] blocked by the cutoffs [1, 2, 3, 4], twice. *)
Lemma block_twice_unit_spaced_witness :
  let c := mkCurve [1; 2; 3; 4; 5] 0 1 "GR" None 0%Z 0 None None None None in
  let c1 := with_samples c [1; 2; 3; 4; 4] in
  block c1 (Some (Cutoffs [1; 2; 3; 4])) None 0 false None = Ok c1.
Proof.
  intros c c1.
  apply (block_twice_unit_spaced c c1 [1; 2; 3; 4] 0 false).
  - reflexivity.
  - vm_compute. reflexivity.
Defined.

(* ------------------------------------------------------------------ *)
(** ** The cutoffs of [n_bins] *)

Section BinCutoffs.

Lemma fold_min_le (a : list Q) (x : Q) :
  fold_left Qmin a x <= x /\ Forall (fun y => fold_left Qmin a x <= y) a.
Proof.
  revert x. induction a as [|y a IH]; intros x; cbn [fold_left].
  - split; [apply Qle_refl | constructor].
  - destruct (IH (Qmin x y)) as [H1 H2]. split; [|constructor].
    + apply Qle_trans with (Qmin x y); [exact H1 | apply Q.le_min_l].
    + apply Qle_trans with (Qmin x y); [exact H1 | apply Q.le_min_r].
    + exact H2.
Qed.

Lemma fold_max_ge (a : list Q) (x : Q) :
  x <= fold_left Qmax a x /\ Forall (fun y => y <= fold_left Qmax a x) a.
Proof.
  revert x. induction a as [|y a IH]; intros x; cbn [fold_left].
  - split; [apply Qle_refl | constructor].
  - destruct (IH (Qmax x y)) as [H1 H2]. split; [|constructor].
    + apply Qle_trans with (Qmax x y); [apply Q.le_max_l | exact H1].
    + apply Qle_trans with (Qmax x y); [apply Q.le_max_r | exact H1].
    + exact H2.
Qed.

(** [np.amin] and [np.amax] bound every sample. *)
Lemma amin_amax_bounds (a : list Q) :
  a <> [] ->
  exists mi ma, Np.amin a = Ok mi /\ Np.amax a = Ok ma /\
                Forall (fun y => mi <= y <= ma) a.
Proof.
  destruct a as [|x a]; [congruence|]. intros _.
  exists (fold_left Qmin a x), (fold_left Qmax a x).
  split; [reflexivity|]. split; [reflexivity|].
  destruct (fold_min_le a x) as [Hx Ha], (fold_max_ge a x) as [Hx' Ha'].
  constructor; [easy|].
  rewrite Forall_forall in *. intros y Hy. split; auto.
Qed.

Lemma removelast_nth_error {A : Type} (l : list A) (j : nat) :
  (S j < length l)%nat -> nth_error (removelast l) j = nth_error l j.
Proof.
  intros Hj. rewrite removelast_firstn_len, nth_error_firstn.
  destruct (Nat.ltb_spec j (Nat.pred (length l))); [reflexivity | lia].
Qed.

Lemma removelast_length {A : Type} (l : list A) :
  length (removelast l) = (length l - 1)%nat.
Proof.
  rewrite removelast_firstn_len, length_firstn. lia.
Qed.

End BinCutoffs.

(** C7, the claim as stated fails: for the samples [1..5] and [n_bins = 2]
    the cutoffs are [1, 3], two of them with the minimum among them, not
    the single interior boundary [3]. *)
Lemma block_n_bins_not_interior :
  let c := mkCurve [1; 2; 3; 4; 5] 0 1 "GR" None 0%Z 0 None None None None in
  (exists cs, block_cutoffs c None None 2 = Ok (Cutoffs cs) /\
              length cs = 2%nat /\ Forall2 Qeq cs [1; 3]) /\
  ~ (exists cs, block_cutoffs c None None 2 = Ok (Cutoffs cs) /\
                length cs = Z.to_nat (2 - 1) /\
                Forall (fun x => 1 < x /\ x < 5) cs).
Proof.
  intro c. split.
  - eexists. split; [vm_compute; reflexivity|]. split; [reflexivity|].
    repeat constructor.
  - intros (cs & H & Hlen & _). vm_compute in H.
    injection H as <-. discriminate Hlen.
Qed.

(** C7, amended.  For a curve with samples and [n_bins > 0] (no cutoffs,
    no values), [block] digitizes with [n_bins] cutoffs: the first [n_bins]
    of the [n_bins + 1] equally spaced boundaries from the minimum [mi] to
    the maximum [ma] of the samples, the one at index [j] being
    [mi + j * (ma - mi) / n_bins].  The minimum is the first cutoff; the
    maximum is not among them. *)
Theorem block_n_bins_cutoffs (c : Curve) (n_bins : Z) (right : bool) :
  (1 <= shape0 c)%nat -> (0 < n_bins)%Z ->
  exists mi ma cs,
    Np.amin (samples c) = Ok mi /\ Np.amax (samples c) = Ok ma /\
    Forall (fun y => mi <= y <= ma) (samples c) /\
    block_cutoffs c None None n_bins = Ok (Cutoffs cs) /\
    length cs = Z.to_nat n_bins /\
    (forall j, (j < Z.to_nat n_bins)%nat ->
       exists x, nth_error cs j = Some x /\
                 x == mi + Np.of_nat j * ((ma - mi) / inject_Z n_bins)) /\
    (mi < ma -> Forall (fun x => x < ma) cs) /\
    block c None None n_bins right None
    = (zones <- Np.digitize (samples c) cs right ;;
       Ok (with_samples c (map inject_Z zones))).
Proof.
  intros HN Hbins.
  destruct (amin_amax_bounds (samples c)) as (mi & ma & Hmi & Hma & Hb).
  { unfold shape0 in HN. destruct (samples c); [cbn in HN; lia | congruence]. }
  set (l := Np.linspace mi ma (Z.to_nat (n_bins + 1))).
  assert (Hl : length l = S (Z.to_nat n_bins)).
  { unfold l. rewrite linspace_length. lia. }
  assert (Hcut : block_cutoffs c None None n_bins = Ok (Cutoffs (removelast l))).
  { unfold block_cutoffs.
    replace (n_bins =? 0)%Z with false by (symmetry; apply Z.eqb_neq; lia).
    rewrite Hmi, Hma. cbn [bind]. unfold Np.linspace_Z.
    replace (n_bins + 1 <? 0)%Z with false by (symmetry; apply Z.ltb_ge; lia).
    reflexivity. }
  assert (Hnth : forall j, (j < Z.to_nat n_bins)%nat ->
            exists x, nth_error (removelast l) j = Some x /\
                      x == mi + Np.of_nat j * ((ma - mi) / inject_Z n_bins)).
  { intros j Hj. rewrite removelast_nth_error by lia.
    destruct (linspace_nth mi ma (Z.to_nat (n_bins + 1)) j ltac:(lia))
      as (x & Hx & Hq).
    exists x. split; [exact Hx|]. rewrite Hq.
    replace (Np.of_nat (Z.to_nat (n_bins + 1) - 1)) with (inject_Z n_bins);
      [reflexivity|].
    unfold Np.of_nat. f_equal. lia. }
  exists mi, ma, (removelast l).
  split; [exact Hmi|]. split; [exact Hma|]. split; [exact Hb|].
  split; [exact Hcut|]. split; [rewrite removelast_length; lia|].
  split; [exact Hnth|]. split.
  - intros Hlt. apply Forall_forall. intros x Hx.
    apply In_nth_error in Hx. destruct Hx as [j Hj].
    assert (Hjn : (j < Z.to_nat n_bins)%nat).
    { assert (j < length (removelast l))%nat
        by (apply nth_error_Some; congruence).
      rewrite removelast_length in H. lia. }
    destruct (Hnth j Hjn) as (x' & Hx' & Hq). rewrite Hj in Hx'.
    injection Hx' as <-. rewrite Hq.
    assert (Hn : 0 < inject_Z n_bins).
    { change 0 with (inject_Z 0). rewrite <- Zlt_Qlt. lia. }
    assert (Hjq : Np.of_nat j < inject_Z n_bins).
    { unfold Np.of_nat. rewrite <- Zlt_Qlt. lia. }
    setoid_replace ma with (mi + inject_Z n_bins * ((ma - mi) / inject_Z n_bins))
      at 2 by (field; intros E; rewrite E in Hn; now apply Qlt_irrefl in Hn).
    apply Qplus_lt_r. apply Qmult_lt_compat_r; [|exact Hjq].
    apply Qlt_shift_div_l; [exact Hn|]. ring_simplify.
    unfold Qminus. rewrite <- Qlt_minus_iff. exact Hlt.
  - unfold block. rewrite Hcut. reflexivity.
Qed.

(** The samples [1..5] in two bins. *)
Lemma block_n_bins_cutoffs_witness :
  let c := mkCurve [1; 2; 3; 4; 5] 0 1 "GR" None 0%Z 0 None None None None in
  exists mi ma cs,
    Np.amin (samples c) = Ok mi /\ Np.amax (samples c) = Ok ma /\
    Forall (fun y => mi <= y <= ma) (samples c) /\
    block_cutoffs c None None 2 = Ok (Cutoffs cs) /\
    length cs = Z.to_nat 2 /\
    (forall j, (j < Z.to_nat 2)%nat ->
       exists x, nth_error cs j = Some x /\
                 x == mi + Np.of_nat j * ((ma - mi) / inject_Z 2)) /\
    (mi < ma -> Forall (fun x => x < ma) cs) /\
    block c None None 2 false None
    = (zones <- Np.digitize (samples c) cs false ;;
       Ok (with_samples c (map inject_Z zones))).
Proof.
  intro c. apply (block_n_bins_cutoffs c 2 false).
  - unfold c, shape0. cbn. lia.
  - lia.
Defined.

(* ------------------------------------------------------------------ *)
(** ** Construction from an irregular depth array *)

Section IrregularDepth.

Lemma getitem_first {A : Type} (a : list A) :
  a <> [] -> exists x, getitem a 0 = Ok x.
Proof.
  intros Ha. apply (getitem_in_range a 0).
  destruct a; [congruence | cbn; lia].
Qed.

Lemma getitem_last {A : Type} (a : list A) :
  a <> [] -> exists x, getitem a (-1) = Ok x.
Proof.
  intros Ha.
  destruct (getitem_in_range a (length a - 1)) as [x Hx].
  { destruct a; [congruence | cbn; lia]. }
  exists x. rewrite <- Hx. unfold getitem.
  assert (Hlen : (1 <= length a)%nat) by (destruct a; [congruence | cbn; lia]).
  change (-1 <? 0)%Z with true. cbv beta iota.
  replace (Z.of_nat (length a) + -1)%Z with (Z.of_nat (length a - 1)) by lia.
  replace (Z.of_nat (length a - 1) <? 0)%Z with false
    by (symmetry; apply Z.ltb_ge; lia).
  reflexivity.
Qed.


Lemma insert_by_perm {A : Type} (key : A -> Q) (x : A) (l : list A) :
  Permutation (Np.insert_by key x l) (x :: l).
Proof.
  induction l as [|y l IH]; cbn [Np.insert_by]; [reflexivity|].
  destruct (Qle_bool (key x) (key y)); [reflexivity|].
  rewrite IH. apply perm_swap.
Qed.

Lemma sort_by_perm {A : Type} (key : A -> Q) (l : list A) :
  Permutation (Np.sort_by key l) l.
Proof.
  induction l as [|x l IH]; [reflexivity|].
  cbn [Np.sort_by fold_right]. fold (Np.sort_by key l).
  rewrite insert_by_perm. now constructor.
Qed.

(** The median of positive differences is positive: a strictly increasing
    depth array never has a zero median step. *)
Lemma nanmedian_positive (d : list Q) (m : Q) :
  Forall (fun x => 0 < x) d -> Np.nanmedian d = Some m -> 0 < m.
Proof.
  intros Hd. unfold Np.nanmedian.
  set (s := Np.sort_by (fun x => x) d).
  assert (Hs : forall i, (i < length s)%nat -> 0 < nth i s 0).
  { intros i Hi. rewrite Forall_forall in Hd. apply Hd.
    apply (Permutation_in _ (sort_by_perm (fun x => x) d)).
    now apply nth_In. }
  destruct (length s) as [|n] eqn:Hn; [discriminate|].
  assert (Hhalf : (S n / 2 < S n)%nat) by (apply Nat.div_lt; lia).
  destruct (Nat.even (S n)); intros H; injection H as <-.
  - assert (H1 := Hs (S n / 2 - 1)%nat ltac:(lia)).
    assert (H2 := Hs (S n / 2)%nat ltac:(lia)).
    apply Qlt_shift_div_l; [reflexivity|].
    change (fst (Nat.divmod n 1 0 0)) with (S n / 2)%nat. lra.
  - now apply Hs.
Qed.

Lemma diff_increasing (depth : list Q) :
  Sorted Qlt depth -> Forall (fun x => 0 < x) (Np.diff depth).
Proof.
  induction 1 as [|x depth Hs IH Hx]; [constructor|].
  destruct depth as [|y depth']; [constructor|].
  change (Np.diff (x :: y :: depth')) with ((y - x) :: Np.diff (y :: depth')).
  constructor; [|exact IH].
  inversion Hx; subst. lra.
Qed.

(** A strictly increasing depth array has a positive median step. *)
Lemma increasing_depth_median (depth : list Q) (m : Q) :
  Sorted Qlt depth -> Np.nanmedian (Np.diff depth) = Some m -> ~ m == 0.
Proof.
  intros Hs Hm E.
  pose proof (nanmedian_positive _ _ (diff_increasing depth Hs) Hm) as Hpos.
  rewrite E in Hpos. now apply Qlt_irrefl in Hpos.
Qed.

End IrregularDepth.

(* ------------------------------------------------------------------ *)
(** ** Quality tests *)

Section QualityFacts.

Variable c : Curve.

Lemma dict_set_nonempty {V : Type} (d : dict V) (k : string) (v : V) :
  dict_set d k v <> [].
Proof.
  destruct d as [|[k' v'] d]; cbn [dict_set]; [discriminate|].
  destruct (String.eqb k k'); discriminate.
Qed.

Lemma dict_get_set_same {V : Type} (d : dict V) (k : string) (v : V) :
  dict_get (dict_set d k v) k = Some v.
Proof.
  induction d as [|[k' v'] d IH]; cbn [dict_set dict_get].
  - now rewrite String.eqb_refl.
  - destruct (String.eqb k k') eqn:E; cbn [dict_get]; rewrite E; [reflexivity|].
    exact IH.
Qed.

Lemma dict_get_set_other {V : Type} (d : dict V) (k k' : string) (v : V) :
  k' <> k -> dict_get (dict_set d k v) k' = dict_get d k'.
Proof.
  intros Hne. induction d as [|[k0 v0] d IH]; cbn [dict_set dict_get].
  - apply String.eqb_neq in Hne. now rewrite Hne.
  - destruct (String.eqb k k0) eqn:E; cbn [dict_get].
    + apply String.eqb_eq in E. subst k0.
      apply String.eqb_neq in Hne. now rewrite Hne.
    + destruct (String.eqb k' k0); [reflexivity | exact IH].
Qed.

Lemma dict_set_values {V : Type} (P : V -> Prop) (d : dict V) (k : string)
  (v : V) :
  P v -> Forall P (dict_values d) -> Forall P (dict_values (dict_set d k v)).
Proof.
  intros Hv. unfold dict_values.
  induction d as [|[k' v'] d IH]; cbn [dict_set map]; intros Hd.
  - now constructor.
  - inversion Hd; subst.
    destruct (String.eqb k k'); cbn [map snd]; constructor; auto.
Qed.

Lemma fold_tests_nonempty (ts : list Test) (d : dict value) :
  d <> [] -> fold_left (record_result c) ts d <> [].
Proof.
  revert d. induction ts as [|t ts IH]; intros d Hd; [exact Hd|].
  cbn [fold_left]. apply IH. apply dict_set_nonempty.
Qed.

Lemma fold_tests_values (P : value -> Prop) (ts : list Test) (d : dict value) :
  (forall t, In t ts -> P (test_fn t c)) ->
  Forall P (dict_values d) ->
  Forall P (dict_values (fold_left (record_result c) ts d)).
Proof.
  revert d. induction ts as [|t ts IH]; intros d Hts Hd; [exact Hd|].
  cbn [fold_left]. apply IH.
  - intros t' Ht'. apply Hts. now right.
  - apply dict_set_values; [apply Hts; now left | exact Hd].
Qed.

Lemma fold_tests_untouched (ts : list Test) (d : dict value) (k : string) :
  (forall t, In t ts -> test_name t <> k) ->
  dict_get (fold_left (record_result c) ts d) k = dict_get d k.
Proof.
  revert d. induction ts as [|t ts IH]; intros d Hts; [reflexivity|].
  cbn [fold_left]. rewrite IH by (intros t' Ht'; apply Hts; now right).
  apply dict_get_set_other. intros E. apply (Hts t); [now left | now symmetry].
Qed.

(** Every name that runs leaves a result: that of the last test of the
    name. *)
Lemma fold_tests_lookup (ts : list Test) (d : dict value) (k : string) :
  (exists t, In t ts /\ test_name t = k) ->
  exists t', In t' ts /\ test_name t' = k /\
             dict_get (fold_left (record_result c) ts d) k = Some (test_fn t' c).
Proof.
  revert d. induction ts as [|t0 ts IH]; intros d (t & Hin & Hk);
    [destruct Hin|].
  cbn [fold_left].
  destruct (existsb (fun t' => String.eqb (test_name t') k) ts) eqn:Hex.
  - apply existsb_exists in Hex. destruct Hex as (t1 & Ht1 & Hn1).
    apply String.eqb_eq in Hn1.
    destruct (IH (record_result c d t0)) as (t' & Ht' & Hn' & Hg'); [now exists t1|].
    exists t'. split; [now right|]. now split.
  - assert (Hnone : forall t', In t' ts -> test_name t' <> k).
    { intros t' Ht' E.
      assert (existsb (fun t' => String.eqb (test_name t') k) ts = true).
      { apply existsb_exists. exists t'. split; [exact Ht'|].
        now apply String.eqb_eq. }
      congruence. }
    assert (Ht0 : test_name t0 = k).
    { destruct Hin as [->|Hin]; [exact Hk|]. now destruct (Hnone t Hin). }
    exists t0. split; [now left|]. split; [exact Ht0|].
    rewrite fold_tests_untouched by exact Hnone.
    unfold record_result. rewrite Ht0. apply dict_get_set_same.
Qed.

Lemma run_tests_nonempty (ts : list Test) :
  ts <> [] -> run_tests c ts <> [].
Proof.
  destruct ts as [|t ts]; [congruence|]. intros _.
  unfold run_tests. cbn [fold_left].
  apply (fold_tests_nonempty ts). apply dict_set_nonempty.
Qed.

Lemma run_tests_values (P : value -> Prop) (ts : list Test) :
  (forall t, In t ts -> P (test_fn t c)) ->
  Forall P (dict_values (run_tests c ts)).
Proof.
  intros Hts. apply (fold_tests_values P ts []); [exact Hts | constructor].
Qed.

Lemma run_tests_lookup (ts : list Test) (t : Test) :
  In t ts ->
  exists t', In t' ts /\ test_name t' = test_name t /\
             dict_get (run_tests c ts) (test_name t) = Some (test_fn t' c).
Proof.
  intros Hin. apply (fold_tests_lookup ts []). now exists t.
Qed.

Lemma dict_set_fresh {V : Type} (d : dict V) (k : string) (v : V) :
  ~ In k (map fst d) -> dict_set d k v = d ++ [(k, v)].
Proof.
  induction d as [|[k' v'] d IH]; intros Hk; [reflexivity|].
  cbn [dict_set app]. cbn [map fst In] in Hk.
  destruct (String.eqb k k') eqn:E.
  - apply String.eqb_eq in E. subst. exfalso. apply Hk. now left.
  - f_equal. apply IH. intros H. apply Hk. now right.
Qed.

Lemma fold_tests_distinct (ts : list Test) (d : dict value) :
  NoDup (map fst d ++ map test_name ts) ->
  fold_left (record_result c) ts d
  = d ++ map (fun t => (test_name t, test_fn t c)) ts.
Proof.
  revert d. induction ts as [|t ts IH]; intros d Hnd; cbn [fold_left map].
  - now rewrite app_nil_r.
  - unfold record_result at 2.
    rewrite dict_set_fresh.
    + rewrite IH.
      * now rewrite <- app_assoc.
      * rewrite map_app. cbn [map fst]. rewrite <- app_assoc. exact Hnd.
    + cbn [map] in Hnd. apply NoDup_remove_2 in Hnd.
      intros H. apply Hnd. apply in_or_app. now left.
Qed.

(** Tests of distinct names each keep their own entry, in their order. *)
Lemma run_tests_distinct (ts : list Test) :
  NoDup (map test_name ts) ->
  run_tests c ts = map (fun t => (test_name t, test_fn t c)) ts.
Proof.
  intros Hnd. unfold run_tests. now rewrite fold_tests_distinct.
Qed.

End QualityFacts.

Section ScoreFacts.

Lemma fold_plus_shift (a : list Q) (x : Q) :
  fold_left Qplus a x == x + fold_left Qplus a 0.
Proof.
  revert x. induction a as [|y a IH]; intros x; cbn [fold_left].
  - ring.
  - rewrite (IH (x + y)), (IH (0 + y)). ring.
Qed.

Lemma sum_cons (x : Q) (a : list Q) : Np.sum (x :: a) == x + Np.sum a.
Proof.
  unfold Np.sum. cbn [fold_left]. rewrite fold_plus_shift. ring.
Qed.

Lemma of_nat_S (n : nat) : Np.of_nat (S n) == 1 + Np.of_nat n.
Proof.
  unfold Np.of_nat. rewrite Nat2Z.inj_succ, <- Z.add_1_l, inject_Z_plus.
  reflexivity.
Qed.

(** [sum(results)] over booleans counts the [True] entries. *)
Lemma sum_booleans (vs : list value) :
  Forall (fun v => exists b, v = VBool b) vs ->
  Np.sum (map num_of vs) == Np.of_nat (passes vs).
Proof.
  induction 1 as [|v vs [b ->] _ IH]; [reflexivity|].
  cbn [map]. rewrite sum_cons, IH. unfold passes. cbn [filter num_of].
  destruct b; cbn [length].
  - now rewrite of_nat_S.
  - ring.
Qed.

Lemma passes_le (vs : list value) : (passes vs <= length vs)%nat.
Proof. apply filter_length_le. Qed.

Lemma passes_all (vs : list value) :
  Forall (eq (VBool true)) vs -> passes vs = length vs.
Proof.
  induction 1 as [|v vs <- _ IH]; [reflexivity|].
  unfold passes in *. cbn [filter length]. now rewrite IH.
Qed.

Lemma passes_none (vs : list value) :
  Forall (eq (VBool false)) vs -> passes vs = O.
Proof.
  induction 1 as [|v vs <- _ IH]; [reflexivity|].
  unfold passes in *. cbn [filter]. exact IH.
Qed.

Lemma filter_none_In {A : Type} (l : list (option A)) (t : A) :
  In t (filter_none l) <-> In (Some t) l.
Proof.
  unfold filter_none. rewrite in_flat_map. split.
  - intros ([t'|] & Hin & Ht); [|destruct Ht].
    destruct Ht as [->|[]]. exact Hin.
  - intros Hin. exists (Some t). split; [exact Hin | now left].
Qed.

End ScoreFacts.

Section QualityScore.

Lemma quality_resolved (c : Curve) (tests : test_mapping)
  (alias : option alias_mapping) :
  quality c tests alias = run_tests c (resolved c tests alias).
Proof.
  unfold quality, resolved, gathered.
  destruct (dict_get tests (mnemonic c)) as [[|]|]; reflexivity.
Qed.

Lemma flatten_absent {A : Type} (l : list string) :
  filter_none (Utils.flatten_list
                 (map (@dict_get (list (option A)) []) l)) = [].
Proof.
  induction l as [|k l IH]; [reflexivity|]. cbn. exact IH.
Qed.

(** An empty test mapping resolves no test. *)
Lemma resolved_empty_mapping (c : Curve) (alias : option alias_mapping) :
  resolved c [] alias = [].
Proof.
  unfold resolved, gathered, get_or. cbn [dict_get app].
  apply flatten_absent.
Qed.

(** The score over a non-empty view of boolean results. *)
Lemma score_of_booleans (c : Curve) (tests : test_mapping)
  (alias : option alias_mapping) :
  let results := dict_values (quality c tests alias) in
  results <> [] ->
  Forall (fun v => exists b, v = VBool b) results ->
  quality_score c tests alias
  == Np.of_nat (passes results) / Np.of_nat (length results).
Proof.
  intros results Hne Hb. unfold quality_score. fold results.
  destruct results as [|v vs] eqn:E; [congruence|].
  rewrite <- E in *. now rewrite sum_booleans.
Qed.

End QualityScore.

(** C10.  [qflag] and [qflags] return the same mapping on every curve,
    test mapping and alias mapping: the results of the tests gathered from
    the wildcard keys, the mnemonic and the alias groups, in this order,
    the [None] entries filtered out, and nothing suppressed. *)
Theorem qflag_qflags_equal (c : Curve) (tests : test_mapping)
  (alias : option alias_mapping) :
  qflag c tests alias = qflags c tests alias /\
  qflags c tests alias
  = run_tests c
      (filter_none
         (get_or tests "each" [] ++ get_or tests "Each" []
          ++ get_or tests "EACH" [] ++ get_or tests (mnemonic c) []
          ++ Utils.flatten_list (map (dict_get tests) (get_alias c alias)))).
Proof. split; reflexivity. Qed.

(* ------------------------------------------------------------------ *)
(** ** Resampling onto the own basis in exact arithmetic

    Over the rationals, and on a curve with two samples or more and a step
    that is not zero, [to_basis(basis=c.basis)] does return the samples it
    was given: what fails on floats is the rounding of the step count. *)

Section SortedPairs.

Lemma Qle_bool_false (x y : Q) : y < x -> Qle_bool x y = false.
Proof.
  intros H. destruct (Qle_bool x y) eqn:E; [|reflexivity].
  apply Qle_bool_iff in E. exfalso. apply (Qlt_irrefl y).
  now apply Qlt_le_trans with x.
Qed.

Lemma Qltb_false (x y : Q) : y <= x -> Np.Qltb x y = false.
Proof.
  intros H. unfold Np.Qltb. apply negb_false_iff. now apply Qle_bool_iff.
Qed.

(** The stable sort leaves an ascending array as it is... *)
Lemma sort_by_ascending (l : list (Q * Q)) :
  StronglySorted ltk l -> Np.sort_by fst l = l.
Proof.
  induction 1 as [|a l Hl IH Ha]; [reflexivity|].
  cbn [Np.sort_by fold_right]. fold (Np.sort_by fst l). rewrite IH.
  destruct l as [|b l']; [reflexivity|].
  cbn [Np.insert_by]. inversion Ha as [|? ? Hab _]; subst.
  replace (Qle_bool (fst a) (fst b)) with true; [reflexivity|].
  symmetry. apply Qle_bool_iff. now apply Qlt_le_weak.
Qed.

Lemma insert_by_last (x : Q * Q) (l : list (Q * Q)) :
  Forall (fun y => fst y < fst x) l -> Np.insert_by fst x l = l ++ [x].
Proof.
  induction 1 as [|y l Hy _ IH]; [reflexivity|].
  cbn [Np.insert_by app]. now rewrite (Qle_bool_false _ _ Hy), IH.
Qed.

(** ... and reverses a descending one. *)
Lemma sort_by_descending (l : list (Q * Q)) :
  StronglySorted gtk l -> Np.sort_by fst l = rev l.
Proof.
  induction 1 as [|a l Hl IH Ha]; [reflexivity|].
  cbn [Np.sort_by fold_right rev]. fold (Np.sort_by fst l). rewrite IH.
  apply insert_by_last. now apply Forall_rev.
Qed.

Lemma sorted_snoc (R : Q * Q -> Q * Q -> Prop) (l : list (Q * Q)) (a : Q * Q) :
  StronglySorted R l -> Forall (fun x => R x a) l ->
  StronglySorted R (l ++ [a]).
Proof.
  induction 1 as [|b l Hl IH Hb]; intros Hall; cbn [app].
  - constructor; constructor.
  - inversion Hall; subst. constructor; [now apply IH|].
    apply Forall_app. split; [exact Hb | now constructor].
Qed.

Lemma sorted_rev (l : list (Q * Q)) :
  StronglySorted gtk l -> StronglySorted ltk (rev l).
Proof.
  induction 1 as [|a l Hl IH Ha]; [constructor|].
  cbn [rev]. apply sorted_snoc; [exact IH|]. now apply Forall_rev.
Qed.

(** A list is sorted when its entries are ordered as their indices are. *)
Lemma sorted_of_nth {A : Type} (R : A -> A -> Prop) (l : list A) :
  (forall i j a b, (i < j)%nat -> nth_error l i = Some a ->
                   nth_error l j = Some b -> R a b) ->
  StronglySorted R l.
Proof.
  induction l as [|x l IH]; intros H; constructor.
  - apply IH. intros i j a b Hij Ha Hb. now apply (H (S i) (S j)); [lia| |].
  - apply Forall_forall. intros y Hy. apply In_nth_error in Hy.
    destruct Hy as [j Hj]. now apply (H O (S j)); [lia| |].
Qed.

Lemma searchsorted_none (xy : list (Q * Q)) (v : Q) :
  Forall (fun q => v < fst q) xy ->
  Np.searchsorted false (map fst xy) v = O.
Proof.
  intros [|q xy' Hq _]; [reflexivity|].
  cbn [map Np.searchsorted]. now rewrite (Qle_bool_false _ _ Hq).
Qed.

(** On ascending nodes the search for the abscissa of a node ends right
    after that node. *)
Lemma searchsorted_node (xy : list (Q * Q)) (x y v : Q) :
  StronglySorted ltk xy -> In (x, y) xy -> v == x ->
  exists j, Np.searchsorted false (map fst xy) v = S j /\
            nth_error xy j = Some (x, y).
Proof.
  intros Hs Hin Hv. induction Hs as [|p xy Hs IH Hp]; [destruct Hin|].
  cbn [map Np.searchsorted]. destruct Hin as [->|Hin].
  - cbn [fst]. replace (Qle_bool x v) with true
      by (symmetry; apply Qle_bool_iff; rewrite Hv; apply Qle_refl).
    exists O. split; [|reflexivity]. f_equal. apply searchsorted_none.
    eapply Forall_impl; [|exact Hp]. intros q Hq. unfold ltk in Hq.
    cbn [fst] in Hq. now rewrite Hv.
  - destruct (IH Hin) as (j & Hj & Hnth).
    assert (Hlt : fst p < x).
    { rewrite Forall_forall in Hp. exact (Hp (x, y) Hin). }
    replace (Qle_bool (fst p) v) with true
      by (symmetry; apply Qle_bool_iff; rewrite Hv; now apply Qlt_le_weak).
    exists (S j). split; [now rewrite Hj | exact Hnth].
Qed.

Lemma sorted_hd_le (xy : list (Q * Q)) (x y : Q) :
  StronglySorted ltk xy -> In (x, y) xy -> hd 0 (map fst xy) <= x.
Proof.
  intros Hs Hin. destruct Hs as [|p xy Hs Hp]; [destruct Hin|].
  cbn [map hd]. destruct Hin as [->|Hin]; [apply Qle_refl|].
  rewrite Forall_forall in Hp. apply Qlt_le_weak. exact (Hp (x, y) Hin).
Qed.

Lemma sorted_le_last (xy : list (Q * Q)) :
  StronglySorted ltk xy ->
  Forall (fun q => fst q <= last (map fst xy) 0) xy.
Proof.
  induction 1 as [|p xy Hs IH Hp]; [constructor|].
  destruct xy as [|q xy'].
  - constructor; [apply Qle_refl | constructor].
  - change (last (map fst (p :: q :: xy')) 0)
      with (last (map fst (q :: xy')) 0).
    constructor; [|exact IH].
    inversion IH as [|? ? Hq _]; subst. inversion Hp as [|? ? Hpq _]; subst.
    apply Qlt_le_weak. now apply Qlt_le_trans with (fst q).
Qed.

(** At the abscissa of a node, the interpolant returns the ordinate of the
    node itself, and the point is inside the bounds. *)
Lemma interp1_node (xy : list (Q * Q)) (x y v : Q) :
  StronglySorted ltk xy -> In (x, y) xy -> v == x ->
  Np.Qltb v (hd 0 (map fst xy)) = false /\
  Np.Qltb (last (map fst xy) 0) v = false /\
  Np.interp1 (map fst xy) (map snd xy) v = y.
Proof.
  intros Hs Hin Hv.
  assert (Hlo : Np.Qltb v (hd 0 (map fst xy)) = false).
  { apply Qltb_false. rewrite Hv. now apply sorted_hd_le with y. }
  assert (Hhi : Np.Qltb (last (map fst xy) 0) v = false).
  { apply Qltb_false. rewrite Hv.
    pose proof (sorted_le_last xy Hs) as Hall.
    rewrite Forall_forall in Hall. exact (Hall (x, y) Hin). }
  split; [exact Hlo|]. split; [exact Hhi|].
  unfold Np.interp1. rewrite Hlo, Hhi.
  destruct (searchsorted_node xy x y v Hs Hin Hv) as (j & Hj & Hnth).
  rewrite Hj. replace (S j - 1)%nat with j by lia.
  assert (Hx : nth j (map fst xy) 0 = x).
  { apply nth_error_nth. now rewrite nth_error_map, Hnth. }
  assert (Hy : nth j (map snd xy) 0 = y).
  { apply nth_error_nth. now rewrite nth_error_map, Hnth. }
  rewrite Hx, Hy.
  destruct (j =? length (map fst xy) - 1)%nat; [reflexivity|].
  replace (Qeq_bool x v) with true; [reflexivity|].
  symmetry. apply Qeq_bool_iff. now symmetry.
Qed.

End SortedPairs.

Section OwnBasis.

Lemma nth_error_combine {A B : Type} (l : list A) (l' : list B) (i : nat)
  (a : A) (b : B) :
  nth_error (combine l l') i = Some (a, b) <->
  nth_error l i = Some a /\ nth_error l' i = Some b.
Proof.
  revert l' i. induction l as [|x l IH]; intros l' i.
  - cbn [combine].
    destruct i; cbn; split; try discriminate; intros [H _]; discriminate.
  - destruct l' as [|y l']; cbn [combine].
    + destruct i; cbn; split; try discriminate; intros [_ H]; discriminate.
    + destruct i as [|i]; cbn [nth_error].
      * split; [intros H; injection H as -> ->; now split
               | intros [H1 H2]; injection H1 as ->; injection H2 as ->;
                 reflexivity].
      * apply IH.
Qed.

Lemma getitem_nth_error {A : Type} (a : list A) (i : nat) (x : A) :
  nth_error a i = Some x -> getitem a (Z.of_nat i) = Ok x.
Proof.
  intros Hx.
  assert (Hi : (i < length a)%nat) by (apply nth_error_Some; congruence).
  unfold getitem.
  replace (Z.of_nat i <? 0)%Z with false by (symmetry; apply Z.ltb_ge; lia).
  replace ((0 <=? Z.of_nat i)%Z && (Z.of_nat i <? Z.of_nat (length a))%Z)%bool
    with true
    by (symmetry; apply andb_true_intro; split;
        [apply Z.leb_le | apply Z.ltb_lt]; lia).
  now rewrite Nat2Z.id, Hx.
Qed.

Lemma getitem_last_nth_error {A : Type} (a : list A) (x : A) :
  nth_error a (length a - 1) = Some x -> getitem a (-1) = Ok x.
Proof.
  intros Hx.
  assert (Hi : (length a - 1 < length a)%nat)
    by (apply nth_error_Some; congruence).
  rewrite <- (getitem_nth_error a _ x Hx). unfold getitem.
  change (-1 <? 0)%Z with true. cbv beta iota.
  replace (Z.of_nat (length a) + -1)%Z with (Z.of_nat (length a - 1)) by lia.
  replace (Z.of_nat (length a - 1) <? 0)%Z with false
    by (symmetry; apply Z.ltb_ge; lia).
  reflexivity.
Qed.

Lemma traverse_Forall2 {A B : Type} (f : A -> res B) (l : list A)
  (ys : list B) :
  Forall2 (fun v y => f v = Ok y) l ys -> traverse f l = Ok ys.
Proof.
  induction 1 as [|v y l ys Hv _ IH]; [reflexivity|].
  cbn [traverse]. rewrite Hv. cbn [bind]. rewrite IH. reflexivity.
Qed.

Lemma Forall2_of_nth {A B : Type} (R : A -> B -> Prop) (l : list A)
  (l' : list B) :
  length l = length l' ->
  (forall i a b, nth_error l i = Some a -> nth_error l' i = Some b -> R a b) ->
  Forall2 R l l'.
Proof.
  revert l'. induction l as [|x l IH]; intros [|y l'] Hlen H;
    try discriminate; constructor.
  - now apply (H O).
  - apply IH; [now injection Hlen|].
    intros i a b Ha Hb. now apply (H (S i)).
Qed.

Variable c : Curve.
Hypothesis two_samples : (2 <= shape0 c)%nat.
Hypothesis step_nonzero : ~ step c == 0.

(** With two points or more, the basis point at index [i] is
    [start + i * step]. *)
Lemma basis_nth (i : nat) :
  (i < shape0 c)%nat ->
  exists v, nth_error (basis c) i = Some v /\
            v == start c + Np.of_nat i * step c.
Proof.
  intros Hi.
  destruct (linspace_nth (start c) (stop c) (shape0 c) i Hi) as (v & Hv & Hq).
  exists v. split; [exact Hv|]. rewrite Hq. unfold stop.
  rewrite of_nat_pred by lia.
  assert (Hpos : 0 < Np.of_nat (shape0 c - 1)) by (apply of_nat_pos; lia).
  field. intros E. rewrite E in Hpos. now apply Qlt_irrefl in Hpos.
Qed.

Lemma of_nat_lt (i j : nat) : (i < j)%nat -> Np.of_nat i < Np.of_nat j.
Proof. intros H. unfold Np.of_nat. rewrite <- Zlt_Qlt. lia. Qed.

Lemma basis_pairs_ascending :
  0 < step c -> StronglySorted ltk (combine (basis c) (samples c)).
Proof.
  intros Hstep. apply sorted_of_nth. intros i j [xa ya] [xb yb] Hij Ha Hb.
  apply nth_error_combine in Ha, Hb. destruct Ha as [Ha Ha'], Hb as [Hb _].
  assert (Hj : (j < shape0 c)%nat).
  { rewrite <- (linspace_length (start c) (stop c)). apply nth_error_Some.
    fold (basis c). congruence. }
  destruct (basis_nth i ltac:(lia)) as (va & Hva & Hqa).
  destruct (basis_nth j Hj) as (vb & Hvb & Hqb).
  rewrite Ha in Hva. rewrite Hb in Hvb.
  injection Hva as <-. injection Hvb as <-.
  unfold ltk. cbn [fst]. rewrite Hqa, Hqb.
  apply Qplus_lt_r. apply Qmult_lt_compat_r; [exact Hstep|].
  now apply of_nat_lt.
Qed.

Lemma basis_pairs_descending :
  step c < 0 -> StronglySorted gtk (combine (basis c) (samples c)).
Proof.
  intros Hstep. apply sorted_of_nth. intros i j [xa ya] [xb yb] Hij Ha Hb.
  apply nth_error_combine in Ha, Hb. destruct Ha as [Ha Ha'], Hb as [Hb _].
  assert (Hj : (j < shape0 c)%nat).
  { rewrite <- (linspace_length (start c) (stop c)). apply nth_error_Some.
    fold (basis c). congruence. }
  destruct (basis_nth i ltac:(lia)) as (va & Hva & Hqa).
  destruct (basis_nth j Hj) as (vb & Hvb & Hqb).
  rewrite Ha in Hva. rewrite Hb in Hvb.
  injection Hva as <-. injection Hvb as <-.
  unfold gtk. cbn [fst]. rewrite Hqa, Hqb.
  apply Qplus_lt_r.
  pose proof (of_nat_lt i j Hij) as Hlt.
  setoid_replace (Np.of_nat j * step c) with (- (Np.of_nat j * - step c))
    by ring.
  setoid_replace (Np.of_nat i * step c) with (- (Np.of_nat i * - step c))
    by ring.
  apply Qopp_lt_compat. apply Qmult_lt_compat_r; [|exact Hlt].
  lra.
Qed.

(** The pairs [interp1d] interpolates between are ascending, whichever way
    the basis runs, and they are the pairs of the curve. *)
Lemma sorted_basis_pairs :
  let xy := Np.sort_by fst (combine (basis c) (samples c)) in
  StronglySorted ltk xy /\
  (forall p, In p (combine (basis c) (samples c)) -> In p xy).
Proof.
  intro xy. split.
  - destruct (Q_dec (step c) 0) as [[Hneg|Hpos]|Hz]; [| |contradiction].
    + unfold xy. rewrite (sort_by_descending _ (basis_pairs_descending Hneg)).
      apply sorted_rev. exact (basis_pairs_descending Hneg).
    + unfold xy. rewrite (sort_by_ascending _ (basis_pairs_ascending Hpos)).
      exact (basis_pairs_ascending Hpos).
  - intros p Hp. unfold xy.
    apply (Permutation_in _ (Permutation_sym (sort_by_perm fst _))). exact Hp.
Qed.

End OwnBasis.

(** In exact arithmetic, resampling a curve of two samples or more and a
    non-zero step onto its own basis gives back its samples, with a start
    and a step equal to its own. *)
Lemma to_basis_own_basis_exact (c : Curve) (undefined : option Q) :
  (2 <= shape0 c)%nat -> ~ step c == 0 ->
  exists c',
    to_basis c (Some (basis c)) None None None undefined = Ok c' /\
    samples c' = samples c /\ start c' == start c /\ step c' == step c.
Proof.
  intros HN Hstep.
  destruct (basis_nth c HN 0 ltac:(lia)) as (b0 & Hb0 & Hq0).
  destruct (basis_nth c HN 1 ltac:(lia)) as (b1 & Hb1 & Hq1).
  destruct (basis_nth c HN (shape0 c - 1) ltac:(lia)) as (bl & Hbl & Hql).
  assert (Hlenb : length (basis c) = shape0 c) by apply linspace_length.
  change (Np.of_nat 0) with 0 in Hq0. change (Np.of_nat 1) with 1 in Hq1.
  assert (Hs0 : b0 == start c) by (rewrite Hq0; ring).
  assert (Hs1 : b1 - b0 == step c) by (rewrite Hq0, Hq1; ring).
  assert (Hz : Qeq_bool (b1 - b0) 0 = false).
  { destruct (Qeq_bool (b1 - b0) 0) eqn:E; [|reflexivity].
    apply Qeq_bool_iff in E. rewrite Hs1 in E. contradiction. }
  assert (Hsteps : Qceiling ((bl - b0) / (b1 - b0))
                   = Z.of_nat (shape0 c - 1)).
  { assert (E : (bl - b0) / (b1 - b0) == inject_Z (Z.of_nat (shape0 c - 1))).
    { rewrite Hs1, Hql, Hq0. unfold Np.of_nat. field. exact Hstep. }
    rewrite E. apply Qceiling_Z. }
  pose proof (getitem_nth_error _ O _ Hb0) as G0.
  pose proof (getitem_nth_error _ 1%nat _ Hb1) as G1.
  change (Z.of_nat 0) with 0%Z in G0. change (Z.of_nat 1) with 1%Z in G1.
  unfold to_basis. cbn [or_else].
  rewrite <- Hlenb in Hbl. rewrite (getitem_last_nth_error _ _ Hbl).
  rewrite G0, G1. cbn [bind].
  rewrite Hz, Hsteps. unfold Np.linspace_Z.
  replace (Z.of_nat (shape0 c - 1) + 1 <? 0)%Z with false
    by (symmetry; apply Z.ltb_ge; lia).
  replace (Z.to_nat (Z.of_nat (shape0 c - 1) + 1)) with (shape0 c) by lia.
  cbn [bind].
  (* the interpolation *)
  assert (Hdata : Sp.interp1d (basis c) (samples c) undefined
                    (Np.linspace b0 bl (shape0 c)) = Ok (samples c)).
  { unfold Sp.interp1d. rewrite Hlenb. unfold shape0 at 1.
    rewrite Nat.eqb_refl. cbn [negb].
    destruct (sorted_basis_pairs c HN Hstep) as [Hsorted Hin].
    set (xy := Np.sort_by fst (combine (basis c) (samples c))) in *.
    assert (Hxs : map fst xy <> []).
    { intros E. apply map_eq_nil in E.
      assert (Hl : length xy = shape0 c).
      { unfold xy. rewrite (Permutation_length (sort_by_perm fst _)).
        rewrite length_combine, Hlenb. unfold shape0. lia. }
      rewrite E in Hl. cbn in Hl. lia. }
    destruct (map fst xy) as [|x0 xs] eqn:Exs; [congruence|].
    rewrite <- Exs. apply traverse_Forall2. apply Forall2_of_nth.
    - rewrite linspace_length. reflexivity.
    - intros i v y Hv Hy.
      assert (Hi : (i < shape0 c)%nat).
      { unfold shape0. apply nth_error_Some. congruence. }
      destruct (linspace_nth b0 bl (shape0 c) i Hi) as (v' & Hv' & Hqv).
      rewrite Hv in Hv'. injection Hv' as <-.
      destruct (basis_nth c HN i Hi) as (bi & Hbi & Hqi).
      assert (Hvb : v == bi).
      { rewrite Hqv, Hqi, Hql, Hq0.
        assert (Hpos : 0 < Np.of_nat (shape0 c - 1)) by (apply of_nat_pos; lia).
        field. intros E. rewrite E in Hpos. now apply Qlt_irrefl in Hpos. }
      assert (Hpair : In (bi, y) xy).
      { apply Hin. apply (nth_error_In _ i). now apply nth_error_combine. }
      destruct (interp1_node xy bi y v Hsorted Hpair Hvb) as (Hlo & Hhi & Hval).
      rewrite Hlo, Hhi. cbn [orb]. now rewrite Hval. }
  rewrite Hdata. cbn [bind]. eexists. split; [reflexivity|].
  cbn [samples start step]. split; [reflexivity|]. split; assumption.
Qed.

(* ================================================================== *)
(** * Further properties of the class *)

(* ------------------------------------------------------------------ *)
(** ** Which tests run, and what the result mapping holds *)

Section TestResolution.

Lemma get_or_In {A : Type} (d : dict (list A)) (k : string) (x : A) :
  In x (get_or d k []) <-> exists l, dict_get d k = Some l /\ In x l.
Proof.
  unfold get_or. destruct (dict_get d k) as [l|].
  - split; [intros H; now exists l | intros (l' & E & H); now injection E as ->].
  - split; [intros [] | intros (l' & E & _); discriminate].
Qed.

Lemma get_alias_In (c : Curve) (alias : alias_mapping) (g : string) :
  In g (get_alias c (Some alias)) <->
  exists ms, In (g, ms) alias /\ In (mnemonic c) ms.
Proof.
  unfold get_alias. rewrite in_map_iff. split.
  - intros ([g' ms] & <- & H). apply filter_In in H. destruct H as [Hin Hex].
    exists ms. split; [exact Hin|].
    apply existsb_exists in Hex. destruct Hex as (m & Hm & E).
    apply String.eqb_eq in E. now subst.
  - intros (ms & Hin & Hm). exists (g, ms). split; [reflexivity|].
    apply filter_In. split; [exact Hin|].
    apply existsb_exists. exists (mnemonic c). split; [exact Hm|].
    apply String.eqb_refl.
Qed.

Lemma flatten_list_In {A : Type} (l : list (option (list (option A))))
  (t : A) :
  In (Some t) (Utils.flatten_list l) <-> exists ts, In (Some ts) l /\ In (Some t) ts.
Proof.
  unfold Utils.flatten_list. rewrite in_flat_map. split.
  - intros ([ts|] & Hin & Ht).
    + now exists ts.
    + destruct Ht as [E|[]]. discriminate.
  - intros (ts & Hin & Ht). now exists (Some ts).
Qed.

Lemma find_snoc {A : Type} (p : A -> bool) (l : list A) (x : A) :
  find p (l ++ [x])
  = match find p l with
    | Some y => Some y
    | None => if p x then Some x else None
    end.
Proof.
  induction l as [|y l IH]; cbn [app find]; [reflexivity|].
  destruct (p y); [reflexivity | exact IH].
Qed.

Lemma fold_tests_last (c : Curve) (ts : list Test) (d : dict value)
  (k : string) :
  dict_get (fold_left (record_result c) ts d) k
  = match find (fun t => String.eqb (test_name t) k) (rev ts) with
    | Some t => Some (test_fn t c)
    | None => dict_get d k
    end.
Proof.
  revert d. induction ts as [|t0 ts IH]; intros d; [reflexivity|].
  cbn [fold_left rev]. rewrite IH, find_snoc.
  destruct (find _ (rev ts)); [reflexivity|].
  unfold record_result. destruct (String.eqb (test_name t0) k) eqn:E.
  - apply String.eqb_eq in E. subst k. apply dict_get_set_same.
  - apply dict_get_set_other. intros H. subst k.
    now rewrite String.eqb_refl in E.
Qed.

End TestResolution.

(** X1.  A test runs in [quality] exactly when the mnemonic is not
    registered with an empty list and the test is registered under one of
    the wildcard keys, under the mnemonic, or under an alias group that
    lists the mnemonic: tests of other keys never run. *)
Theorem resolved_tests_iff (c : Curve) (tests : test_mapping)
  (alias : option alias_mapping) (t : Test) :
  In t (resolved c tests alias) <->
  dict_get tests (mnemonic c) <> Some [] /\
  exists key ts,
    dict_get tests key = Some ts /\ In (Some t) ts /\
    (key = "each"%string \/ key = "Each"%string \/ key = "EACH"%string \/
     key = mnemonic c \/
     exists groups ms, alias = Some groups /\ In (key, ms) groups /\
                       In (mnemonic c) ms).
Proof.
  assert (Hg : In (Some t) (gathered c tests alias) <->
          exists key ts,
            dict_get tests key = Some ts /\ In (Some t) ts /\
            (key = "each"%string \/ key = "Each"%string \/
             key = "EACH"%string \/ key = mnemonic c \/
             exists groups ms, alias = Some groups /\ In (key, ms) groups /\
                               In (mnemonic c) ms)).
  { unfold gathered. rewrite !in_app_iff, !get_or_In, flatten_list_In. split.
    - intros [(ts & E & H)|[(ts & E & H)|[(ts & E & H)|[(ts & E & H)|H]]]].
      + exists "each"%string, ts. auto.
      + exists "Each"%string, ts. auto 6.
      + exists "EACH"%string, ts. auto 6.
      + exists (mnemonic c), ts. auto 7.
      + destruct H as (ts & Hin & Ht). apply in_map_iff in Hin.
        destruct Hin as (g & E & Hgin). exists g, ts.
        split; [exact E|]. split; [exact Ht|]. do 4 right.
        destruct alias as [groups|]; [|destruct Hgin].
        apply get_alias_In in Hgin. destruct Hgin as (ms & H1 & H2).
        now exists groups, ms.
    - intros (key & ts & E & Ht & [->|[->|[->|[->|H]]]]).
      + left. now exists ts.
      + right; left. now exists ts.
      + do 2 right; left. now exists ts.
      + do 3 right; left. now exists ts.
      + do 4 right. destruct H as (groups & ms & -> & H1 & H2).
        exists ts. split; [|exact Ht]. apply in_map_iff. exists key.
        split; [exact E|]. apply get_alias_In. now exists ms. }
  unfold resolved.
  destruct (dict_get tests (mnemonic c)) as [[|o l]|] eqn:E.
  - split; [intros [] | intros [H _]; now destruct H].
  - rewrite filter_none_In, Hg. split; [intros H; split; [discriminate|exact H]
                                       | intros [_ H]; exact H].
  - rewrite filter_none_In, Hg. split; [intros H; split; [discriminate|exact H]
                                       | intros [_ H]; exact H].
Qed.

(** X2.  Under every name the result mapping of [quality] holds what the
    last resolved test of that name returns, and it holds nothing under a
    name no resolved test has. *)
Theorem quality_lookup_last (c : Curve) (tests : test_mapping)
  (alias : option alias_mapping) (name : string) :
  dict_get (quality c tests alias) name
  = option_map (fun t => test_fn t c)
      (find (fun t => String.eqb (test_name t) name)
            (rev (resolved c tests alias))).
Proof.
  rewrite quality_resolved. unfold run_tests. rewrite fold_tests_last.
  now destruct (find _ _).
Qed.

(* ------------------------------------------------------------------ *)
(** ** The score and the override, by the keys that apply *)

Section KeysThatApply.

Variable c : Curve.
Variable tests : test_mapping.
Variable alias : option alias_mapping.

(** What [quality], [qflag] and [qflags] gather is what is registered
    under the keys that apply to the curve. *)
Lemma gathered_registered (t : Test) :
  In t (filter_none (gathered c tests alias)) <-> registered_for c tests alias t.
Proof.
  rewrite filter_none_In. unfold gathered, registered_for, applies_to.
  rewrite !in_app_iff, !get_or_In, flatten_list_In. split.
  - intros [(ts & E & H)|[(ts & E & H)|[(ts & E & H)|[(ts & E & H)|H]]]].
    + exists "each"%string, ts. auto.
    + exists "Each"%string, ts. auto 6.
    + exists "EACH"%string, ts. auto 6.
    + exists (mnemonic c), ts. auto 7.
    + destruct H as (ts & Hin & Ht). apply in_map_iff in Hin.
      destruct Hin as (g & E & Hgin). exists g, ts.
      split; [exact E|]. split; [exact Ht|]. do 4 right.
      destruct alias as [groups|]; [|destruct Hgin].
      apply get_alias_In in Hgin. destruct Hgin as (ms & H1 & H2).
      now exists groups, ms.
  - intros (key & ts & E & Ht & [->|[->|[->|[->|H]]]]).
    + left. now exists ts.
    + right; left. now exists ts.
    + do 2 right; left. now exists ts.
    + do 3 right; left. now exists ts.
    + do 4 right. destruct H as (groups & ms & -> & H1 & H2).
      exists ts. split; [|exact Ht]. apply in_map_iff. exists key.
      split; [exact E|]. apply get_alias_In. now exists ms.
Qed.

Lemma resolved_registered (t : Test) :
  In t (resolved c tests alias) <->
  dict_get tests (mnemonic c) <> Some [] /\ registered_for c tests alias t.
Proof.
  unfold resolved.
  destruct (dict_get tests (mnemonic c)) as [[|o l]|] eqn:E.
  - split; [intros [] | intros [H _]; now destruct H].
  - rewrite gathered_registered.
    split; [intros H; split; [discriminate|exact H] | intros [_ H]; exact H].
  - rewrite gathered_registered.
    split; [intros H; split; [discriminate|exact H] | intros [_ H]; exact H].
Qed.

Lemma qflag_gathered :
  qflag c tests alias = run_tests c (filter_none (gathered c tests alias)).
Proof. reflexivity. Qed.

End KeysThatApply.

(** C4, the claim as stated fails: the result mapping is keyed by the name
    of the test, so of two resolved tests of one name only the last one
    counts.  One failing and one passing test, both named [check], score 1
    and not the pass-rate of one half. *)
Lemma quality_score_same_name :
  let c := mkCurve [1; 2; 3] 0 1 "GR" None 0%Z 0 None None None None in
  let failing := mkTest "check" (fun _ => VBool false) in
  let passing := mkTest "check" (fun _ => VBool true) in
  let tests := [("each"%string, [Some failing]);
                ("GR"%string, [Some passing])] in
  resolved c tests None = [failing; passing] /\
  passes (map (fun t => test_fn t c) (resolved c tests None)) = 1%nat /\
  quality_score c tests None == 1 /\
  ~ quality_score c tests None == 1 # 2.
Proof.
  intros c failing passing tests.
  split; [reflexivity|]. split; [reflexivity|].
  split; [reflexivity|]. intros H. discriminate H.
Qed.

(** C4, amended.  A test is resolved exactly when the mnemonic is not
    registered with an empty list and the test is registered under a
    wildcard key, the mnemonic, or an alias group that lists the mnemonic.
    With boolean-valued tests, [quality_score] is [-1] when no test is
    resolved (as for an empty mapping), [1] when every resolved test
    returns true and [0] when every resolved test returns false; it is the
    fraction of the entries of the result mapping that are true, and, when
    the resolved tests have distinct names, the fraction of the resolved
    tests that return true. *)
Theorem quality_score_distinct_names (c : Curve) (tests : test_mapping)
  (alias : option alias_mapping) :
  (forall t, In t (resolved c tests alias) -> exists b, test_fn t c = VBool b) ->
  let results := dict_values (quality c tests alias) in
  let outcomes := map (fun t => test_fn t c) (resolved c tests alias) in
  (forall t, In t (resolved c tests alias) <->
             dict_get tests (mnemonic c) <> Some [] /\
             registered_for c tests alias t) /\
  quality_score c [] alias = -1 /\
  (resolved c tests alias = [] -> quality_score c tests alias = -1) /\
  (resolved c tests alias <> [] ->
   (forall t, In t (resolved c tests alias) -> test_fn t c = VBool true) ->
   quality_score c tests alias == 1) /\
  (resolved c tests alias <> [] ->
   (forall t, In t (resolved c tests alias) -> test_fn t c = VBool false) ->
   quality_score c tests alias == 0) /\
  (resolved c tests alias <> [] ->
   quality_score c tests alias
   == Np.of_nat (passes results) / Np.of_nat (length results) /\
   0 <= quality_score c tests alias <= 1) /\
  (resolved c tests alias <> [] ->
   NoDup (map test_name (resolved c tests alias)) ->
   quality_score c tests alias
   == Np.of_nat (passes outcomes) / Np.of_nat (length outcomes)).
Proof.
  intros Hbool results outcomes.
  assert (Hres : forall P : value -> Prop,
            (forall t, In t (resolved c tests alias) -> P (test_fn t c)) ->
            Forall P results).
  { intros P HP. unfold results. rewrite quality_resolved.
    now apply run_tests_values. }
  assert (Hne : resolved c tests alias <> [] -> results <> []).
  { intros H E. unfold results in E. rewrite quality_resolved in E.
    apply map_eq_nil in E. revert E. now apply run_tests_nonempty. }
  assert (Hscore : resolved c tests alias <> [] ->
            quality_score c tests alias
            == Np.of_nat (passes results) / Np.of_nat (length results)).
  { intros H. apply score_of_booleans; [now apply Hne|].
    apply Hres. intros t Ht. destruct (Hbool t Ht) as [b Hb]. now exists b. }
  assert (Hlen : resolved c tests alias <> [] -> 0 < Np.of_nat (length results)).
  { intros H. apply of_nat_pos. specialize (Hne H).
    destruct results; [congruence | cbn; lia]. }
  split; [|split; [|split; [|split; [|split; [|split]]]]].
  - intros t. apply resolved_registered.
  - unfold quality_score. rewrite quality_resolved, resolved_empty_mapping.
    reflexivity.
  - intros E. unfold quality_score. rewrite quality_resolved, E. reflexivity.
  - intros H Hall. rewrite (Hscore H), passes_all.
    + field. intros E. specialize (Hlen H). rewrite E in Hlen.
      now apply Qlt_irrefl in Hlen.
    + apply Hres. intros t Ht. now rewrite (Hall t Ht).
  - intros H Hall. rewrite (Hscore H), passes_none.
    + change (Np.of_nat 0) with 0. unfold Qdiv. ring.
    + apply Hres. intros t Ht. now rewrite (Hall t Ht).
  - intros H. split; [exact (Hscore H)|]. rewrite (Hscore H).
    specialize (Hlen H). split.
    + apply Qle_shift_div_l; [exact Hlen|]. rewrite Qmult_0_l.
      change 0 with (Np.of_nat 0). apply of_nat_le. lia.
    + apply Qle_shift_div_r; [exact Hlen|]. rewrite Qmult_1_l.
      apply of_nat_le. apply passes_le.
  - intros H Hnd. rewrite (Hscore H).
    assert (E : results = outcomes).
    { unfold results, outcomes, dict_values.
      rewrite quality_resolved, run_tests_distinct by exact Hnd.
      now rewrite map_map. }
    now rewrite E.
Qed.

(** A test that passes under the wildcard, one that fails under an alias
    group of the mnemonic, a third under a group the mnemonic is not in:
    two tests are resolved and the score is one half. *)
Lemma quality_score_distinct_names_witness :
  let c := mkCurve [1; 2; 3] 0 1 "GR" None 0%Z 0 None None None None in
  let pass := mkTest "pass" (fun _ => VBool true) in
  let fail := mkTest "fail" (fun _ => VBool false) in
  let other := mkTest "other" (fun _ => VBool false) in
  let tests := [("each"%string, [Some pass]);
                ("Gamma"%string, [Some fail; None]);
                ("Sonic"%string, [Some other])] in
  let alias := Some [("Gamma"%string, ["GAM"%string; "GR"%string]);
                     ("Sonic"%string, ["DT"%string])] in
  In fail (resolved c tests alias) /\
  quality_score c tests alias == 1 # 2 /\
  quality_score c [] alias = -1.
Proof.
  intros c pass fail other tests alias.
  destruct (quality_score_distinct_names c tests alias)
    as (Hin & H0 & _ & _ & _ & _ & H).
  - intros t Ht. cbn in Ht. destruct Ht as [<-|[<-|[]]]; eexists; reflexivity.
  - split; [|split; [|exact H0]].
    + apply Hin. split; [discriminate|].
      exists "Gamma"%string, [Some fail; None].
      split; [reflexivity|]. split; [now left|].
      do 4 right. eexists _, ["GAM"%string; "GR"%string].
      split; [reflexivity|]. split; [now left | right; now left].
    + rewrite H; [reflexivity | discriminate |].
      cbn. repeat constructor; cbn; intuition discriminate.
Defined.

(** C5.  When the test mapping holds the curve's mnemonic with an empty
    list, [quality] returns an empty mapping whatever is registered under
    the wildcard keys and the alias groups, while [qflag] runs those tests
    all the same: every test registered under a wildcard key or under an
    alias group that lists the mnemonic has a result under its name in the
    mapping of [qflag] (that of the last such test of the name), and
    [qflag] holds results of such tests only. *)
Theorem quality_empty_override (c : Curve) (tests : test_mapping)
  (alias : option alias_mapping) :
  dict_get tests (mnemonic c) = Some [] ->
  quality c tests alias = [] /\
  (forall t, registered_for c tests alias t ->
     exists t', registered_for c tests alias t' /\
                test_name t' = test_name t /\
                dict_get (qflag c tests alias) (test_name t)
                = Some (test_fn t' c)) /\
  (forall name v, dict_get (qflag c tests alias) name = Some v ->
     exists t, registered_for c tests alias t /\ test_name t = name /\
               test_fn t c = v) /\
  (forall t, registered_for c tests alias t ->
     exists key ts, dict_get tests key = Some ts /\ In (Some t) ts /\
                    key <> mnemonic c /\ applies_to c alias key) /\
  ((exists t, registered_for c tests alias t) ->
   qflag c tests alias <> quality c tests alias).
Proof.
  intros Hkey.
  assert (Hq : quality c tests alias = []).
  { rewrite quality_resolved. unfold resolved. now rewrite Hkey. }
  split; [exact Hq|]. split; [|split; [|split]].
  - intros t Ht. rewrite qflag_gathered.
    destruct (run_tests_lookup c (filter_none (gathered c tests alias)) t)
      as (t' & Ht' & Hn & Hg).
    { now apply gathered_registered. }
    exists t'. split; [now apply gathered_registered|]. now split.
  - intros name v Hv. rewrite qflag_gathered in Hv.
    unfold run_tests in Hv. rewrite fold_tests_last in Hv.
    destruct (find _ _) as [t|] eqn:E; [|discriminate].
    apply find_some in E. destruct E as [Hin Hname].
    apply in_rev in Hin. apply String.eqb_eq in Hname.
    exists t. split; [now apply gathered_registered|].
    split; [exact Hname|]. cbn [dict_get] in Hv. congruence.
  - intros t (key & ts & E & Ht & Hk). exists key, ts.
    split; [exact E|]. split; [exact Ht|]. split; [|exact Hk].
    intros ->. rewrite Hkey in E. injection E as <-. destruct Ht.
  - intros (t & Ht). rewrite Hq, qflag_gathered.
    apply run_tests_nonempty. intros E.
    apply gathered_registered in Ht. rewrite E in Ht. destruct Ht.
Qed.

(** The mnemonic registered with no tests, a test under the wildcard and
    one under an alias group of the mnemonic. *)
Lemma quality_empty_override_witness :
  let c := mkCurve [1; 2; 3] 0 1 "GR" None 0%Z 0 None None None None in
  let pass := mkTest "pass" (fun _ => VBool true) in
  let fail := mkTest "fail" (fun _ => VBool false) in
  let tests := [("each"%string, [Some pass]); ("GR"%string, []);
                ("Gamma"%string, [Some fail])] in
  let alias := Some [("Gamma"%string, ["GAM"%string; "GR"%string])] in
  quality c tests alias = [] /\
  (exists v, dict_get (qflag c tests alias) "fail" = Some v) /\
  qflag c tests alias <> quality c tests alias.
Proof.
  intros c pass fail tests alias.
  assert (Hfail : registered_for c tests alias fail).
  { exists "Gamma"%string, [Some fail].
    split; [reflexivity|]. split; [now left|].
    do 4 right. eexists _, ["GAM"%string; "GR"%string].
    split; [reflexivity|]. split; [now left | right; now left]. }
  destruct (quality_empty_override c tests alias) as (Hq & Hrun & _ & _ & Hne).
  - reflexivity.
  - split; [exact Hq|]. split.
    + destruct (Hrun fail Hfail) as (t' & _ & _ & Hv).
      exists (test_fn t' c). exact Hv.
    + apply Hne. now exists fail.
Defined.

(* ------------------------------------------------------------------ *)
(** ** Construction without an irregular depth array *)

Section RegularDepth.

Lemma allclose_zeros (f : Q -> Q) (d : list Q) :
  Forall (fun x => f x == 0) d ->
  Np.allclose (map f d) (Np.zeros_like d) = true.
Proof.
  induction 1 as [|x d Hx _ IH]; [reflexivity|].
  cbn [Np.zeros_like map Np.allclose]. fold (Np.zeros_like d).
  rewrite IH, andb_true_r. apply Qle_bool_iff.
  setoid_replace (f x - 0) with 0 by (rewrite Hx; ring).
  vm_compute. discriminate.
Qed.

Lemma sum_constant (a : list Q) (p : Q) :
  Forall (fun x => x == p) a -> Np.sum a == Np.of_nat (length a) * p.
Proof.
  induction 1 as [|x a Hx _ IH].
  - unfold Np.sum. cbn [fold_left length]. change (Np.of_nat 0) with 0. ring.
  - cbn [length]. rewrite sum_cons, IH, of_nat_S, Hx. ring.
Qed.

Lemma mean_constant (a : list Q) (p : Q) :
  a <> [] -> Forall (fun x => x == p) a -> Np.mean a == p.
Proof.
  intros Hne Ha. unfold Np.mean. rewrite (sum_constant a p Ha).
  assert (Hpos : 0 < Np.of_nat (length a)).
  { apply of_nat_pos. destruct a; [congruence | cbn; lia]. }
  field. intros E. rewrite E in Hpos. now apply Qlt_irrefl in Hpos.
Qed.

Lemma nanmedian_constant (a : list Q) (p : Q) :
  a <> [] -> Forall (fun x => x == p) a ->
  exists m, Np.nanmedian a = Some m /\ m == p.
Proof.
  intros Hne Ha. unfold Np.nanmedian.
  set (s := Np.sort_by (fun x => x) a).
  assert (Hs : forall i, (i < length s)%nat -> nth i s 0 == p).
  { intros i Hi. rewrite Forall_forall in Ha. apply Ha.
    apply (Permutation_in _ (sort_by_perm (fun x => x) a)).
    now apply nth_In. }
  assert (Hlen : length s = length a)
    by apply (Permutation_length (sort_by_perm (fun x => x) a)).
  destruct (length s) as [|n] eqn:Hn.
  - destruct a; [congruence | cbn in Hlen; lia].
  - assert (Hhalf : (S n / 2 < S n)%nat) by (apply Nat.div_lt; lia).
    destruct (Nat.even (S n)); eexists; (split; [reflexivity|]).
    + rewrite (Hs (S n / 2 - 1)%nat), (Hs (S n / 2)%nat) by lia. field.
    + now apply Hs.
Qed.

Lemma diff_length (a : list Q) : length (Np.diff a) = (length a - 1)%nat.
Proof.
  induction a as [|x a IH]; [reflexivity|].
  destruct a as [|y a']; [reflexivity|].
  change (Np.diff (x :: y :: a')) with ((y - x) :: Np.diff (y :: a')).
  cbn [length] in *. lia.
Qed.

End RegularDepth.

(** X3.  Without a depth array and without a start, [from_lasio_curve]
    raises [CurveError] when no basis is given either, and [IndexError]
    when the basis has fewer than two points to read start and step from;
    no warning is emitted. *)
Theorem from_lasio_curve_no_start (curve : Lasio.curve)
  (stop_ : option Q) (step_ : Q) (run_ : Z) (null_ : Q)
  (service_company_ date_ basis_units_ : option string) :
  from_lasio_curve curve None None None stop_ step_ run_ null_
                   service_company_ date_ basis_units_
  = ([], Raise (CurveError "You must provide a basis or a start depth.")) /\
  forall b, (length b < 2)%nat ->
    from_lasio_curve curve None (Some b) None stop_ step_ run_ null_
                     service_company_ date_ basis_units_
    = ([], Raise IndexError).
Proof.
  split; [reflexivity|].
  intros [|x [|y b]] Hb; [reflexivity | reflexivity | cbn in Hb; lia].
Qed.

(** X4.  With a start and a zero step, [from_lasio_curve] raises
    [CurveError] when no stop is given, whatever basis is passed; given a
    stop and a number [N] of samples other than one, it emits no warning
    and returns the samples as they are, under the start that was given
    and the step [(stop - start) / (N - 1)]. *)
Theorem from_lasio_curve_zero_step (curve : Lasio.curve)
  (basis_ : option (list Q)) (s step_ : Q) (run_ : Z) (null_ : Q)
  (service_company_ date_ basis_units_ : option string) :
  step_ == 0 ->
  from_lasio_curve curve None basis_ (Some s) None step_ run_ null_
                   service_company_ date_ basis_units_
  = ([], Raise (CurveError "You must provide a step or a stop depth.")) /\
  forall e, length (Lasio.data curve) <> 1%nat ->
    from_lasio_curve curve None basis_ (Some s) (Some e) step_ run_ null_
                     service_company_ date_ basis_units_
    = ([], Ok (mkCurve (Lasio.data curve) s
                 ((e - s) / inject_Z (Z.of_nat (length (Lasio.data curve)) - 1))
                 (Lasio.mnemonic curve) (Lasio.unit curve) run_ null_
                 service_company_ date_ (Lasio.API_code curve) basis_units_)).
Proof.
  intros Hz. apply Qeq_bool_iff in Hz.
  unfold from_lasio_curve, regularize. cbn [bind g_start g_step g_stop g_data].
  rewrite Hz. split; [reflexivity|].
  intros e HN.
  replace (Z.of_nat (length (Lasio.data curve)) - 1 =? 0)%Z with false
    by (symmetry; apply Z.eqb_neq; lia).
  reflexivity.
Qed.

(** Three samples from 100 to 200: a step of 100 / 2. *)
Lemma from_lasio_curve_zero_step_witness :
  from_lasio_curve (Lasio.mk [1; 2; 3] None "GR" None None)
                   None None (Some 100) (Some 200) 0 (-1) 0 None None None
  = ([], Ok (mkCurve [1; 2; 3] 100 ((200 - 100) / inject_Z 2) "GR" None (-1) 0
                     None None None None)).
Proof.
  destruct (from_lasio_curve_zero_step
              (Lasio.mk [1; 2; 3] None "GR" None None) None 100 0 (-1) 0
              None None None) as [_ H]; [reflexivity|].
  apply (H 200). cbn. lia.
Defined.

(** X5.  A depth array of two entries or more whose successive differences
    all equal a non-zero [p] is taken as it is: no warning, the raw
    samples are stored unchanged, the start is the first depth and the
    step equals [p], whatever basis, start and step were passed. *)
Theorem from_lasio_curve_regular (curve : Lasio.curve) (depth : list Q)
  (basis_ : option (list Q)) (start_ stop_ : option Q) (step_ p : Q)
  (run_ : Z) (null_ : Q)
  (service_company_ date_ basis_units_ : option string) :
  (2 <= length depth)%nat ->
  Forall (fun x => x == p) (Np.diff depth) ->
  ~ p == 0 ->
  exists d0 m,
    getitem depth 0 = Ok d0 /\ m == p /\
    from_lasio_curve curve (Some depth) basis_ start_ stop_ step_ run_ null_
                     service_company_ date_ basis_units_
    = ([], Ok (mkCurve (Lasio.data curve) d0 m (Lasio.mnemonic curve)
                       (Lasio.unit curve) run_ null_ service_company_ date_
                       (Lasio.API_code curve) basis_units_)).
Proof.
  intros Hlen Hd Hp.
  assert (Hne : Np.diff depth <> []).
  { intros E. pose proof (diff_length depth) as L. rewrite E in L.
    cbn in L. lia. }
  destruct (getitem_first depth) as [d0 Hd0].
  { intros E. rewrite E in Hlen. cbn in Hlen. lia. }
  destruct (nanmedian_constant _ p Hne Hd) as (m & Hm & Hmp).
  exists d0, m. split; [exact Hd0|]. split; [exact Hmp|].
  unfold from_lasio_curve, regularize.
  rewrite allclose_zeros.
  - cbn [negb]. rewrite Hd0, Hm. cbn [bind g_start g_step g_data].
    replace (Qeq_bool m 0) with false; [reflexivity|].
    symmetry. destruct (Qeq_bool m 0) eqn:E; [|reflexivity].
    apply Qeq_bool_iff in E. rewrite Hmp in E. contradiction.
  - apply Forall_forall. intros x Hx. rewrite (mean_constant _ p Hne Hd).
    rewrite Forall_forall in Hd. rewrite (Hd x Hx). ring.
Qed.

(** Depths from 10 by 2: the step 0.1524 that was passed is ignored. *)
Lemma from_lasio_curve_regular_witness :
  exists d0 m,
    getitem [10; 12; 14; 16] 0 = Ok d0 /\ m == 2 /\
    from_lasio_curve (Lasio.mk [1; 2; 3; 4] None "GR" None None)
                     (Some [10; 12; 14; 16]) None None None (1524 # 10000)
                     (-1) 0 None None None
    = ([], Ok (mkCurve [1; 2; 3; 4] d0 m "GR" None (-1) 0 None None None
                       None)).
Proof.
  apply (from_lasio_curve_regular
           (Lasio.mk [1; 2; 3; 4] None "GR" None None) [10; 12; 14; 16]
           None None None (1524 # 10000) 2 (-1) 0 None None None).
  - cbn. lia.
  - repeat constructor.
  - intros H. vm_compute in H. discriminate.
Defined.

(* ------------------------------------------------------------------ *)
(** ** Slicing a curve *)

Section Slicing.

Lemma last_as_nth {A : Type} (l : list A) (d : A) :
  last l d = nth (length l - 1) l d.
Proof.
  induction l as [|x l IH]; [reflexivity|].
  destruct l as [|y l']; [reflexivity|].
  change (last (x :: y :: l') d) with (last (y :: l') d). rewrite IH.
  cbn [length]. rewrite !Nat.sub_succ, !Nat.sub_0_r. reflexivity.
Qed.

Lemma basis_nth_any (c : Curve) (i : nat) :
  (i < shape0 c)%nat ->
  exists v, nth_error (basis c) i = Some v /\
            v == start c + Np.of_nat i * step c.
Proof.
  intros Hi. destruct (Nat.le_gt_cases 2 (shape0 c)) as [H2|H1].
  - now apply basis_nth.
  - assert (i = O) by lia. subst i.
    destruct (linspace_nth (start c) (stop c) (shape0 c) 0 Hi) as (v & Hv & Hq).
    exists v. split; [exact Hv|]. rewrite Hq.
    change (Np.of_nat 0) with 0. ring.
Qed.

Lemma getitem_beyond {A : Type} (l : list A) (a : Z) :
  (Z.of_nat (length l) <= a)%Z -> getitem l a = Raise IndexError.
Proof.
  intros Ha. unfold getitem.
  replace (a <? 0)%Z with false by (symmetry; apply Z.ltb_ge; lia).
  replace (a <? Z.of_nat (length l))%Z with false
    by (symmetry; apply Z.ltb_ge; lia).
  now rewrite andb_false_r.
Qed.

Lemma skipn_cons_nth {A : Type} (l : list A) (a : nat) (x : A) :
  nth_error l a = Some x -> skipn a l = x :: skipn (S a) l.
Proof.
  revert a. induction l as [|y l IH]; intros [|a] H; try discriminate.
  - now injection H as ->.
  - cbn [nth_error] in H. change (skipn (S a) (y :: l)) with (skipn a l).
    now rewrite (IH a H).
Qed.

Lemma take_seq {A : Type} (l : list A) (a n : nat) :
  (a + n <= length l)%nat -> take l (seq a n) = firstn n (skipn a l).
Proof.
  revert a. induction n as [|n IH]; intros a Ha; [reflexivity|].
  cbn [seq]. unfold take in *. cbn [flat_map].
  destruct (nth_error l a) as [x|] eqn:E.
  - rewrite (skipn_cons_nth l a x E). cbn [firstn app]. f_equal.
    apply IH. lia.
  - apply nth_error_None in E. lia.
Qed.

(** Taking entries at valid positions reads them one by one. *)
Lemma take_nth_error {A : Type} (l : list A) (ps : list nat) (j : nat) :
  Forall (fun p => (p < length l)%nat) ps ->
  nth_error (take l ps) j
  = match nth_error ps j with
    | Some p => nth_error l p
    | None => None
    end.
Proof.
  intros Hps. revert j. induction Hps as [|p ps Hp _ IH]; intros j.
  - now destruct j.
  - unfold take in *. cbn [flat_map].
    destruct (nth_error l p) as [x|] eqn:E.
    + destruct j as [|j]; cbn [app nth_error]; [now rewrite E | apply IH].
    + apply nth_error_None in E. lia.
Qed.

Lemma take_length {A : Type} (l : list A) (ps : list nat) :
  Forall (fun p => (p < length l)%nat) ps -> length (take l ps) = length ps.
Proof.
  induction 1 as [|p ps Hp _ IH]; [reflexivity|].
  unfold take in *. cbn [flat_map].
  destruct (nth_error l p) as [x|] eqn:E.
  - cbn [app length]. now rewrite IH.
  - apply nth_error_None in E. lia.
Qed.

Lemma seq_offset (a s n : nat) :
  map (fun j => (a + j)%nat) (seq s n) = seq (a + s) n.
Proof.
  revert s. induction n as [|n IH]; intros s; [reflexivity|].
  cbn [seq map]. f_equal. rewrite IH. f_equal. lia.
Qed.

(** The walk of a slice with a positive step stays inside the array. *)
Lemma slice_positions_forward (a b k n : Z) (j : nat) (p : nat) :
  (0 <= a)%Z -> (b <= n)%Z -> (0 < k)%Z ->
  nth_error (slice_positions a b k) j = Some p ->
  Z.of_nat p = (a + Z.of_nat j * k)%Z /\ (Z.of_nat p < n)%Z.
Proof.
  intros Ha Hb Hk. unfold slice_positions.
  replace (0 <? k)%Z with true by (symmetry; apply Z.ltb_lt; lia).
  rewrite nth_error_map.
  destruct (nth_error (seq 0 _) j) as [j'|] eqn:E; [|discriminate].
  intros H. injection H as <-.
  assert (Hj : (j < length (seq 0 (Z.to_nat
            (if (a <? b)%Z then ((b - a - 1) / k + 1)%Z else 0%Z))))%nat)
    by (apply nth_error_Some; congruence).
  rewrite length_seq in Hj.
  rewrite nth_error_seq in E.
  destruct (Nat.ltb_spec j (Z.to_nat
            (if (a <? b)%Z then ((b - a - 1) / k + 1)%Z else 0%Z)));
    [|discriminate].
  injection E as <-. cbn [Nat.add].
  destruct (Z.ltb_spec a b) as [Hab|Hab]; [|cbn in Hj; lia].
  assert (Hdiv : (k * ((b - a - 1) / k) <= b - a - 1)%Z)
    by (apply Z.mul_div_le; lia).
  assert (Hq : (0 <= (b - a - 1) / k)%Z) by (apply Z.div_pos; lia).
  assert (Hjq : (Z.of_nat j <= (b - a - 1) / k)%Z) by lia.
  split; [lia|]. nia.
Qed.

End Slicing.

(** X9.  Slicing a curve from a positive start at or beyond its length
    raises [IndexError]: the start of the slice is read off the basis
    before the samples are sliced. *)
Theorem getitem_slice_start_beyond (c : Curve) (a : Z)
  (stop_ step_ : option Z) :
  shape0 c <> 1%nat -> (0 < a)%Z -> (Z.of_nat (shape0 c) <= a)%Z ->
  getitem_slice c (mkSlice (Some a) stop_ step_) = SliceRaises IndexError.
Proof.
  intros H1 Hpos Ha. unfold getitem_slice.
  replace (shape0 c =? 1)%nat with false
    by (symmetry; now apply Nat.eqb_neq).
  cbn [sl_start].
  replace (0 <? a)%Z with true by (symmetry; apply Z.ltb_lt; lia).
  rewrite getitem_beyond; [reflexivity|].
  unfold basis. now rewrite linspace_length.
Qed.

(** Five samples sliced from index 7. *)
Lemma getitem_slice_start_beyond_witness :
  getitem_slice (mkCurve [1; 2; 3; 4; 5] 0 1 "GR" None 0%Z 0 None None None
                         None)
                (mkSlice (Some 7%Z) None None) = SliceRaises IndexError.
Proof.
  apply getitem_slice_start_beyond; [discriminate | lia | cbn; lia].
Defined.

(** X10.  A slice with a negative start keeps the start of the whole
    curve: [c[-m:]] holds the last [m] samples, under the start and the
    step of [c]. *)
Theorem getitem_slice_negative_start (c : Curve) (m : nat) :
  (2 <= shape0 c)%nat -> (1 <= m <= shape0 c)%nat ->
  exists c',
    getitem_slice c (mkSlice (Some (- Z.of_nat m)%Z) None None) = Sliced c' /\
    samples c' = skipn (shape0 c - m) (samples c) /\
    start c' = start c /\ step c' = step c.
Proof.
  intros HN Hm. unfold getitem_slice.
  replace (shape0 c =? 1)%nat with false
    by (symmetry; apply Nat.eqb_neq; lia).
  cbn [sl_start sl_step sl_stop].
  replace (0 <? - Z.of_nat m)%Z with false by (symmetry; apply Z.ltb_ge; lia).
  unfold slice_indices. cbn [sl_start sl_step sl_stop].
  change (1 =? 0)%Z with false. change (1 <? 0)%Z with false. cbv beta iota.
  replace (- Z.of_nat m <? 0)%Z with true by (symmetry; apply Z.ltb_lt; lia).
  eexists. split; [reflexivity|]. cbn [samples start step].
  split; [|split; reflexivity].
  replace (Z.max (- Z.of_nat m + Z.of_nat (shape0 c)) 0)
    with (Z.of_nat (shape0 c - m)) by lia.
  unfold slice_positions. change (0 <? 1)%Z with true. cbv beta iota.
  replace (Z.of_nat (shape0 c - m) <? Z.of_nat (shape0 c))%Z with true
    by (symmetry; apply Z.ltb_lt; lia).
  rewrite Z.div_1_r.
  replace (Z.to_nat (Z.of_nat (shape0 c) - Z.of_nat (shape0 c - m) - 1 + 1))
    with m by lia.
  rewrite (map_ext _ (fun j => (shape0 c - m) + j)%nat) by (intros j; lia).
  rewrite seq_offset, Nat.add_0_r.
  rewrite take_seq by (unfold shape0 in *; lia).
  apply firstn_all2. rewrite length_skipn. unfold shape0. lia.
Qed.

(** The last two of five samples. *)
Lemma getitem_slice_negative_start_witness :
  exists c',
    getitem_slice (mkCurve [1; 2; 3; 4; 5] 0 1 "GR" None 0%Z 0 None None None
                           None)
                  (mkSlice (Some (- Z.of_nat 2)%Z) None None) = Sliced c' /\
    samples c' = [4; 5] /\ start c' = 0 /\ step c' = 1.
Proof.
  apply (getitem_slice_negative_start
           (mkCurve [1; 2; 3; 4; 5] 0 1 "GR" None 0%Z 0 None None None None)
           2); cbn; lia.
Defined.

(** X11.  Slicing a curve of two samples or more from a start [a] inside
    it (or from no start, [a = 0]), with a positive step [k] (or none,
    [k = 1]) and any stop, gives the samples at [a], [a + k], [a + 2k], ...
    below the bound [b] that the stop clips to.  The slice starts at the
    basis point of its first sample when [a] is positive, at the start of
    the curve when [a] is zero, and its step is the step of the curve
    times the step of the slice. *)
Theorem getitem_slice_forward (c : Curve) (start_ stop_ step_ : option Z) :
  (2 <= shape0 c)%nat ->
  match start_ with
  | Some a => (0 <= a < Z.of_nat (shape0 c))%Z
  | None => True
  end ->
  match step_ with Some k => (0 < k)%Z | None => True end ->
  let a := match start_ with Some a => a | None => 0%Z end in
  let k := match step_ with Some k => k | None => 1%Z end in
  exists b c',
    slice_indices (mkSlice start_ stop_ step_) (Z.of_nat (shape0 c))
    = Ok (a, b, k) /\
    (b <= Z.of_nat (shape0 c))%Z /\
    getitem_slice c (mkSlice start_ stop_ step_) = Sliced c' /\
    (forall j : nat,
       nth_error (samples c') j
       = if (a + Z.of_nat j * k <? b)%Z
         then nth_error (samples c) (Z.to_nat (a + Z.of_nat j * k))
         else None) /\
    ((0 < a)%Z -> nth_error (basis c) (Z.to_nat a) = Some (start c')) /\
    (a = 0%Z -> start c' = start c) /\
    step c' = match step_ with
              | Some k => step c * inject_Z k
              | None => step c
              end.
Proof.
  intros HN Hstart Hstep a k.
  set (n := Z.of_nat (shape0 c)).
  assert (Hk : (0 < k)%Z) by (unfold k; destruct step_; lia).
  assert (Ha : (0 <= a < n)%Z) by (unfold a, n; destruct start_; lia).
  assert (Hidx : exists b, (b <= n)%Z /\
            slice_indices (mkSlice start_ stop_ step_) n = Ok (a, b, k)).
  { unfold slice_indices. cbn [sl_start sl_stop sl_step]. fold k.
    replace (k =? 0)%Z with false by (symmetry; apply Z.eqb_neq; lia).
    replace (k <? 0)%Z with false by (symmetry; apply Z.ltb_ge; lia).
    eexists. split; [|f_equal; f_equal; f_equal].
    - destruct stop_ as [v|]; [|apply Z.le_refl].
      destruct (v <? 0)%Z eqn:E; [apply Z.ltb_lt in E|]; lia.
    - unfold a. destruct start_ as [v|]; [|reflexivity].
      replace (v <? 0)%Z with false by (symmetry; apply Z.ltb_ge; lia). lia. }
  destruct Hidx as (b & Hb & Hidx).
  set (ps := slice_positions a b k).
  assert (Hps : forall j p, nth_error ps j = Some p ->
            Z.of_nat p = (a + Z.of_nat j * k)%Z /\ (p < shape0 c)%nat).
  { intros j p Hp.
    destruct (slice_positions_forward a b k n j p ltac:(lia) Hb Hk Hp).
    split; [assumption | unfold n in *; lia]. }
  assert (Hall : Forall (fun p => (p < length (samples c))%nat) ps).
  { apply Forall_forall. intros p Hp.
    apply In_nth_error in Hp. destruct Hp as [j Hj].
    now apply (Hps j p). }
  assert (Hwalk : forall j : nat,
            nth_error ps j
            = if (a + Z.of_nat j * k <? b)%Z
              then Some (Z.to_nat (a + Z.of_nat j * k)) else None).
  { intros j. unfold ps, slice_positions.
    replace (0 <? k)%Z with true by (symmetry; apply Z.ltb_lt; lia).
    rewrite nth_error_map, nth_error_seq. cbn [Nat.add].
    destruct (Z.ltb_spec a b) as [Hab|Hab].
    - assert (Hdiv : (k * ((b - a - 1) / k) <= b - a - 1)%Z)
        by (apply Z.mul_div_le; lia).
      assert (Hdiv' : (b - a - 1 < k * Z.succ ((b - a - 1) / k))%Z)
        by (apply Z.mul_succ_div_gt; lia).
      assert (Hq : (0 <= (b - a - 1) / k)%Z) by (apply Z.div_pos; lia).
      destruct (Nat.ltb_spec j (Z.to_nat ((b - a - 1) / k + 1)));
        destruct (Z.ltb_spec (a + Z.of_nat j * k) b);
        try reflexivity; exfalso; nia.
    - destruct (Nat.ltb_spec j (Z.to_nat 0)); [cbn in *; lia|].
      destruct (Z.ltb_spec (a + Z.of_nat j * k) b); [exfalso; nia|].
      reflexivity. }
  assert (Hnew : exists s0,
            match start_ with
            | Some a => if (0 <? a)%Z then getitem (basis c) a else Ok (start c)
            | None => Ok (start c)
            end = Ok s0 /\
            ((0 < a)%Z -> nth_error (basis c) (Z.to_nat a) = Some s0) /\
            (a = 0%Z -> s0 = start c)).
  { unfold a. destruct start_ as [v|].
    - destruct (Z.ltb_spec 0 v) as [Hv|Hv].
      + destruct (basis_nth_any c (Z.to_nat v)) as (x & Hx & _);
          [unfold n, a in Ha; lia|].
        exists x. split; [|split; [intros _; exact Hx | lia]].
        rewrite <- (getitem_nth_error _ _ _ Hx). f_equal. lia.
      + exists (start c). split; [reflexivity|]. split; [lia | reflexivity].
    - exists (start c). split; [reflexivity|]. split; [lia | reflexivity]. }
  destruct Hnew as (s0 & Hs0 & Hpos & Hzero).
  eexists b, _. split; [exact Hidx|]. split; [exact Hb|]. split.
  { unfold getitem_slice.
    replace (shape0 c =? 1)%nat with false
      by (symmetry; apply Nat.eqb_neq; lia).
    cbn [sl_start sl_step]. rewrite Hs0. fold n. rewrite Hidx. reflexivity. }
  cbn [samples start step]. fold ps.
  split; [|split; [exact Hpos | split; [exact Hzero | reflexivity]]].
  intros j. rewrite (take_nth_error _ _ _ Hall), Hwalk.
  now destruct (a + Z.of_nat j * k <? b)%Z.
Qed.

(** Every second of five samples, from index 1. *)
Lemma getitem_slice_forward_witness :
  exists c',
    getitem_slice (mkCurve [1; 2; 3; 4; 5] 0 1 "GR" None 0%Z 0 None None None
                           None)
                  (mkSlice (Some 1%Z) None (Some 2%Z)) = Sliced c' /\
    samples c' = [2; 4] /\ step c' = 1 * inject_Z 2.
Proof.
  destruct (getitem_slice_forward
              (mkCurve [1; 2; 3; 4; 5] 0 1 "GR" None 0%Z 0 None None None None)
              (Some 1%Z) None (Some 2%Z))
    as (b & c' & Hidx & _ & Hc' & Hs & _ & _ & Hstep).
  - cbn. lia.
  - cbn. lia.
  - lia.
  - exists c'. split; [exact Hc'|]. split; [|exact Hstep].
    injection Hidx as <-.
    pose proof (Hs 0%nat) as H0. pose proof (Hs 1%nat) as H1.
    pose proof (Hs 2%nat) as H2. cbn in H0, H1, H2.
    destruct (samples c') as [|x [|y [|z l]]]; try discriminate.
    cbn in H0, H1. now injection H0 as ->; injection H1 as ->.
Defined.

(* ------------------------------------------------------------------ *)
(** ** What blocking computes *)

Section Digitizing.

Lemma ascending_inv (x : Q) (a : list Q) :
  Np.ascending (x :: a) = true ->
  Forall (fun y => x <= y) a /\ Np.ascending a = true.
Proof.
  revert x. induction a as [|y a IH]; intros x H.
  - split; [constructor | reflexivity].
  - change (Np.ascending (x :: y :: a))
      with (Qle_bool x y && Np.ascending (y :: a)) in H.
    apply andb_prop in H. destruct H as [Hxy Hya].
    apply Qle_bool_iff in Hxy. destruct (IH y Hya) as [Hall _].
    split; [|exact Hya]. constructor; [exact Hxy|].
    eapply Forall_impl; [|exact Hall]. intros z Hz.
    now apply Qle_trans with y.
Qed.

Lemma filter_nothing {A : Type} (f : A -> bool) (l : list A) :
  Forall (fun y => f y = false) l -> filter f l = [].
Proof.
  induction 1 as [|y l Hy _ IH]; [reflexivity|].
  cbn [filter]. now rewrite Hy.
Qed.

(** On ascending bins the insertion point counts the bins at or below the
    value (strictly below it, for the left side). *)
Lemma searchsorted_count (strict : bool) (a : list Q) (v : Q) :
  Np.ascending a = true ->
  Np.searchsorted strict a v
  = length (filter (fun b => if strict then Np.Qltb b v else Qle_bool b v) a).
Proof.
  induction a as [|x a IH]; intros Ha; [reflexivity|].
  destruct (ascending_inv x a Ha) as [Hall Ha'].
  cbn [Np.searchsorted filter].
  destruct (if strict then Np.Qltb x v else Qle_bool x v) eqn:E.
  - cbn [length]. now rewrite IH.
  - rewrite filter_nothing; [reflexivity|].
    eapply Forall_impl; [|exact Hall]. intros y Hy.
    destruct strict.
    + unfold Np.Qltb in *. apply negb_false_iff in E.
      apply negb_false_iff. apply Qle_bool_iff in E. apply Qle_bool_iff.
      now apply Qle_trans with x.
    + destruct (Qle_bool y v) eqn:E'; [|reflexivity].
      apply Qle_bool_iff in E'.
      assert (H : Qle_bool x v = true)
        by (apply Qle_bool_iff; now apply Qle_trans with y).
      congruence.
Qed.

Lemma fill_slice_length (a : list Q) (lo hi : nat) (v : Q) :
  length (fill_slice a lo hi v) = length a.
Proof.
  revert lo hi. induction a as [|x a IH]; intros lo hi; [reflexivity|].
  cbn [fill_slice]. destruct lo, hi; cbn [length]; now rewrite ?IH.
Qed.

Lemma digitize_length (x bins : list Q) (right : bool) (zones : list Z) :
  Np.digitize x bins right = Ok zones -> length zones = length x.
Proof.
  unfold Np.digitize. destruct (Np.monotonicity bins) as [|[| |]|[| |]];
    try discriminate; intros H; injection H as <-; apply length_map.
Qed.

End Digitizing.

(** X12.  Blocked by ascending cutoffs (or by a single number), with no
    function and no values, every sample becomes the number of cutoffs at
    or below it (strictly below it with [right=True]); the geometry and
    the other attributes are those of the curve. *)
Theorem block_counts_cutoffs (c : Curve) (cs : list Q) (n_bins : Z)
  (right : bool) :
  Np.ascending cs = true ->
  let zone := fun x : Q =>
    Np.of_nat (length (filter (fun b => if right then Np.Qltb b x
                                        else Qle_bool b x) cs)) in
  block c (Some (Cutoffs cs)) None n_bins right None
  = Ok (with_samples c (map zone (samples c))) /\
  forall q, cs = [q] ->
    block c (Some (Cutoff q)) None n_bins right None
    = Ok (with_samples c (map zone (samples c))).
Proof.
  intros Hasc zone.
  assert (H : Np.digitize (samples c) cs right
              = Ok (map (fun v => Z.of_nat (Np.searchsorted right cs v))
                        (samples c))).
  { unfold Np.digitize, Np.monotonicity. now rewrite Hasc. }
  assert (Hmap : map inject_Z
                   (map (fun v => Z.of_nat (Np.searchsorted right cs v))
                        (samples c))
                 = map zone (samples c)).
  { rewrite map_map. apply map_ext. intros v. unfold zone, Np.of_nat.
    now rewrite (searchsorted_count right cs v Hasc). }
  split.
  - unfold block, block_cutoffs, block_digitize. cbn [bind].
    rewrite H. cbn [bind]. now rewrite Hmap.
  - intros q ->. unfold block, block_cutoffs, block_digitize. cbn [bind].
    rewrite H. cbn [bind]. now rewrite Hmap.
Qed.

(** The samples [1..5] against the cutoffs 2 and 4. *)
Lemma block_counts_cutoffs_witness :
  block (mkCurve [1; 2; 3; 4; 5] 0 1 "GR" None 0%Z 0 None None None None)
        (Some (Cutoffs [2; 4])) None 0 false None
  = Ok (mkCurve [0; 1; 1; 2; 2] 0 1 "GR" None 0%Z 0 None None None None).
Proof.
  destruct (block_counts_cutoffs
              (mkCurve [1; 2; 3; 4; 5] 0 1 "GR" None 0%Z 0 None None None None)
              [2; 4] 0 false) as [H _]; [reflexivity|].
  rewrite H. reflexivity.
Defined.

Section ZoneLoops.

Lemma fill_slice_app (a : list Q) (lo hi : nat) (v : Q) :
  (lo <= hi)%nat -> (hi <= length a)%nat ->
  fill_slice a lo hi v = firstn lo a ++ repeat v (hi - lo) ++ skipn hi a.
Proof.
  revert lo hi. induction a as [|x a IH]; intros lo hi Hlo Hhi.
  - cbn in Hhi. assert (hi = O) by lia. assert (lo = O) by lia. now subst.
  - destruct hi as [|hi].
    + assert (lo = O) by lia. now subst.
    + destruct lo as [|lo]; cbn [fill_slice].
      * rewrite (IH O hi) by (cbn [length] in Hhi; lia).
        cbn [firstn app skipn]. now rewrite Nat.sub_0_r.
      * rewrite (IH lo hi) by (cbn [length] in Hhi; lia).
        reflexivity.
Qed.

Lemma chain_le (t tm : nat) (sp : list (nat * nat)) :
  chain t sp tm -> (t <= tm)%nat.
Proof. induction 1; lia. Qed.

Lemma reduced_length (f : list Q -> Q) (self : list Q) (t tm : nat)
  (sp : list (nat * nat)) :
  chain t sp tm -> length (reduced f self sp) = (tm - t)%nat.
Proof.
  induction 1 as [t|t t' tm sp Hle Hc IH]; [cbn; lia|].
  unfold reduced in *. cbn [flat_map fst snd].
  rewrite length_app, repeat_length, IH.
  apply chain_le in Hc. lia.
Qed.

(** The loop over the spans fills them one after the other and leaves the
    rest of the array alone. *)
Lemma fold_reduce
  (g : list Q * option nat -> nat * nat -> list Q * option nat)
  (f : list Q -> Q) (self : list Q) (t tm : nat)
  (sp : list (nat * nat)) (d : list Q) (b : option nat) :
  (forall st top base,
     g st (top, base)
     = (fill_slice (fst st) top base (f (slice self top base)), Some base)) ->
  chain t sp tm -> (tm <= length d)%nat ->
  fold_left g sp (d, b)
  = (firstn t d ++ reduced f self sp ++ skipn tm d,
     match sp with [] => b | _ => Some tm end).
Proof.
  intros Hg Hc. revert d b.
  induction Hc as [t|t t' tm sp Hle Hc IH]; intros d b Htm.
  - cbn [fold_left]. unfold reduced. cbn [flat_map app].
    now rewrite firstn_skipn.
  - cbn [fold_left]. rewrite Hg. cbn [fst].
    pose proof (chain_le _ _ _ Hc) as Hle'.
    rewrite IH by (rewrite fill_slice_length; exact Htm).
    rewrite fill_slice_app by lia.
    assert (Hf : firstn t' (firstn t d ++ repeat (f (slice self t t')) (t' - t)
                            ++ skipn t' d)
                 = firstn t d ++ repeat (f (slice self t t')) (t' - t)).
    { rewrite app_assoc. rewrite firstn_app.
      rewrite length_app, length_firstn, repeat_length.
      replace (t' - (Nat.min t (length d) + (t' - t)))%nat with O by lia.
      cbn [firstn]. rewrite app_nil_r. apply firstn_all2.
      rewrite length_app, length_firstn, repeat_length. lia. }
    assert (Hs : skipn tm (firstn t d ++ repeat (f (slice self t t')) (t' - t)
                           ++ skipn t' d)
                 = skipn tm d).
    { rewrite app_assoc, skipn_app.
      rewrite length_app, length_firstn, repeat_length.
      rewrite (skipn_all2 (firstn t d ++ _))
        by (rewrite length_app, length_firstn, repeat_length; lia).
      cbn [app]. rewrite skipn_skipn. f_equal. lia. }
    rewrite Hf, Hs. unfold reduced. cbn [flat_map fst snd].
    rewrite <- !app_assoc. f_equal.
    destruct sp; [inversion Hc; subst; reflexivity | reflexivity].
Qed.

Lemma spans_cons (t t' : nat) (rest : list nat) :
  spans (t :: t' :: rest) = (t, t') :: spans (t' :: rest).
Proof. reflexivity. Qed.

(** The tops that edge detection finds after index [i] continue any top
    at or before [i] into a chain that ends inside the array. *)
Lemma edges_from_chain (a : list Q) (i : nat) (v : Q) (t : nat) :
  (t <= i)%nat ->
  let tops := t :: map fst (Utils.edges_from i v a) in
  chain t (spans tops) (last tops 0%nat) /\
  (last tops 0%nat <= i + length a)%nat /\
  (Utils.edges_from i v a <> [] -> (last tops 0%nat < i + length a)%nat).
Proof.
  revert i v t. induction a as [|x a IH]; intros i v t Ht; cbn zeta.
  - cbn [Utils.edges_from map]. split; [constructor|]. cbn. split; [lia|].
    congruence.
  - cbn [Utils.edges_from length]. destruct (Qeq_bool x v).
    + destruct (IH (S i) x t ltac:(lia)) as (H1 & H2 & H3).
      split; [exact H1|]. split; [lia|]. intros H. specialize (H3 H). lia.
    + cbn [map fst]. rewrite spans_cons.
      destruct (IH (S i) x i ltac:(lia)) as (H1 & H2 & H3).
      change (last (t :: i :: map fst (Utils.edges_from (S i) x a)) 0%nat)
        with (last (i :: map fst (Utils.edges_from (S i) x a)) 0%nat).
      split; [now constructor|]. split; [lia|]. intros _.
      destruct (Utils.edges_from (S i) x a) eqn:E.
      * cbn. lia.
      * rewrite <- E in *. assert (H : Utils.edges_from (S i) x a <> [])
          by (rewrite E; discriminate).
        specialize (H3 H). lia.
Qed.

(** A chain, continued by one more span, is the chain of the tops with the
    end appended. *)
Lemma spans_snoc (t : nat) (rest : list nat) (n : nat) :
  spans ((t :: rest) ++ [n])
  = spans (t :: rest) ++ [(last (t :: rest) 0%nat, n)].
Proof.
  revert t. induction rest as [|t' rest IH]; intros t; [reflexivity|].
  change ((t :: t' :: rest) ++ [n]) with (t :: (t' :: rest) ++ [n]).
  change ((t' :: rest) ++ [n]) with (t' :: rest ++ [n]).
  rewrite spans_cons. change (t' :: rest ++ [n]) with ((t' :: rest) ++ [n]).
  rewrite IH, spans_cons. reflexivity.
Qed.

End ZoneLoops.

Section ReducingZones.

(** With two zones or more, the reducing loop and the statement after it
    treat every zone alike, the final one included. *)
Lemma reduce_zones_closed (f : list Q -> Q) (self : list Q) (zones : list Z)
  (tops : list nat) (vals : list Q) :
  length self = length zones ->
  Utils.find_edges (map inject_Z zones) = (tops, vals) ->
  (2 <= length tops)%nat ->
  reduce_zones f self (map inject_Z zones) tops
  = Ok (reduced f self (zones_of tops (length self))) /\
  chain 0 (zones_of tops (length self)) (length self).
Proof.
  intros Hlen Hedges Htops.
  destruct zones as [|z0 zs]; [injection Hedges as <- _; cbn in Htops; lia|].
  cbn [map Utils.find_edges] in Hedges. injection Hedges as <- _.
  set (a := map inject_Z zs) in *. set (x0 := inject_Z z0) in *.
  cbn [map fst] in *.
  destruct (edges_from_chain a 1 x0 0 ltac:(lia)) as (Hc & Hle & Hlt).
  cbn zeta in Hc, Hle, Hlt.
  set (tops := O :: map fst (Utils.edges_from 1 x0 a)) in *.
  assert (Hne : Utils.edges_from 1 x0 a <> []).
  { intros E. unfold tops in Htops. rewrite E in Htops. cbn in Htops. lia. }
  specialize (Hlt Hne).
  assert (HN : length self = S (length a)).
  { rewrite Hlen. cbn [length]. unfold a. now rewrite length_map. }
  set (tm := last tops 0%nat) in *.
  assert (Hsp : spans tops <> []).
  { unfold tops. destruct (Utils.edges_from 1 x0 a); [congruence|].
    cbn [map]. rewrite spans_cons. discriminate. }
  assert (Hzones : zones_of tops (length self)
                   = spans tops ++ [(tm, length self)]).
  { unfold zones_of, tops. apply spans_snoc. }
  split.
  - unfold reduce_zones. cbn [map].
    erewrite (fold_reduce _ f self 0 tm (spans tops) (x0 :: a) None);
      [|intros; reflexivity | exact Hc | cbn [length]; lia].
    destruct (spans tops) as [|s0 sp] eqn:Esp; [congruence|].
    rewrite <- Esp in *. cbn [firstn app]. f_equal.
    unfold fill_from.
    pose proof (reduced_length f self 0 tm (spans tops) Hc) as Hrl.
    rewrite Nat.sub_0_r in Hrl.
    rewrite fill_slice_app
      by (rewrite length_app, Hrl, length_skipn; cbn [length]; lia).
    rewrite firstn_app, Hrl, Nat.sub_diag. cbn [firstn]. rewrite app_nil_r.
    rewrite firstn_all2 by lia.
    rewrite skipn_all, app_nil_r.
    rewrite length_app, Hrl, length_skipn. cbn [length].
    rewrite Hzones. unfold reduced at 2. rewrite flat_map_app.
    cbn [flat_map fst snd]. rewrite app_nil_r. fold (reduced f self (spans tops)).
    f_equal. rewrite HN.
    replace (tm + (S (length a) - tm) - tm)%nat with (S (length a) - tm)%nat
      by lia.
    f_equal. f_equal. unfold slice_from, slice.
    symmetry. apply firstn_all2. rewrite length_skipn. lia.
  - rewrite Hzones. clear - Hc Hlt HN. fold tm in Hc.
    assert (Htm : (tm <= length self)%nat) by lia.
    revert Hc. generalize (spans tops). generalize 0%nat.
    intros t sp Hc. induction Hc as [t|t t' tm sp Hle Hc IH].
    + cbn [app]. constructor; [exact Htm | constructor].
    + cbn [app]. constructor; [exact Hle|]. now apply IH.
Qed.

End ReducingZones.

(** X13.  When the digitized curve has two zones or more, [block] with a
    reducing function treats every zone alike, the final one included:
    each zone [top, base), the last reaching to the end of the array, is
    filled with the function of the original samples [self[top:base]]. *)
Theorem block_reduces_every_zone (c : Curve) (cutoffs : option cutoffs_arg)
  (n_bins : Z) (right : bool) (f : list Q -> Q) (cs : cutoffs_arg)
  (zones : list Z) (tops : list nat) (vals : list Q) :
  block_cutoffs c cutoffs None n_bins = Ok cs ->
  block_digitize c cs right = Ok zones ->
  Utils.find_edges (map inject_Z zones) = (tops, vals) ->
  (2 <= length tops)%nat ->
  block c cutoffs None n_bins right (Some f)
  = Ok (with_samples c (reduced f (samples c) (zones_of tops (shape0 c)))) /\
  chain 0 (zones_of tops (shape0 c)) (shape0 c).
Proof.
  intros Hcs Hz Hedges Htops.
  assert (Hlen : length (samples c) = length zones).
  { symmetry. unfold block_digitize in Hz.
    destruct cs; now apply digitize_length in Hz. }
  destruct (reduce_zones_closed f (samples c) zones tops vals Hlen Hedges Htops)
    as [Hred Hchain].
  split; [|exact Hchain].
  unfold block. rewrite Hcs. cbn [bind]. rewrite Hz. cbn [bind].
  rewrite Hedges, Hred. reflexivity.
Qed.

(** The samples [1..5] against the cutoff 3, reduced by the mean. *)
Lemma block_reduces_every_zone_witness :
  block (mkCurve [1; 2; 3; 4; 5] 0 1 "GR" None 0%Z 0 None None None None)
        (Some (Cutoffs [3])) None 0 false (Some Np.mean)
  = Ok (with_samples
          (mkCurve [1; 2; 3; 4; 5] 0 1 "GR" None 0%Z 0 None None None None)
          (reduced Np.mean [1; 2; 3; 4; 5] [(0, 2); (2, 5)]%nat)).
Proof.
  destruct (block_reduces_every_zone
              (mkCurve [1; 2; 3; 4; 5] 0 1 "GR" None 0%Z 0 None None None None)
              (Some (Cutoffs [3])) 0 false Np.mean (Cutoffs [3])
              [0; 0; 1; 1; 1]%Z [0; 2]%nat [0; 1]) as [H _].
  - reflexivity.
  - reflexivity.
  - reflexivity.
  - cbn. lia.
  - exact H.
Defined.

Section MappingZones.

Lemma body_segs_combine (t : nat) (v : Q) (E : list (nat * Q)) :
  combine (spans (t :: map fst E)) (all_but_last (v :: map snd E))
  = body_segs t v E.
Proof.
  revert t v. induction E as [|[t' v'] E IH]; intros t v; [reflexivity|].
  cbn [map fst snd body_segs]. rewrite spans_cons.
  change (all_but_last (v :: v' :: map snd E))
    with (v :: all_but_last (v' :: map snd E)).
  cbn [combine]. now rewrite IH.
Qed.

Lemma last_seg_tops (t : nat) (v : Q) (E : list (nat * Q)) :
  last (t :: map fst E) 0%nat = fst (last_seg t v E) /\
  last (v :: map snd E) 0 = snd (last_seg t v E).
Proof.
  revert t v. induction E as [|[t' v'] E IH]; intros t v; [now split|].
  cbn [map fst snd last_seg].
  change (last (t :: t' :: map fst E) 0%nat)
    with (last (t' :: map fst E) 0%nat).
  change (last (v :: v' :: map snd E) 0) with (last (v' :: map snd E) 0).
  apply IH.
Qed.

Lemma getitem_minus_one (a : list Q) :
  a <> [] -> getitem a (-1) = Ok (last a 0).
Proof.
  intros Ha. rewrite last_as_nth. apply getitem_last_nth_error.
  apply nth_error_nth'. destruct a; [congruence | cbn; lia].
Qed.

Lemma ordered_bounds (t : nat) (E : list (nat * Q)) (n : nat) (v : Q) :
  ordered t E n -> (t <= fst (last_seg t v E) <= n)%nat.
Proof.
  revert t v. induction E as [|[t' v'] E IH]; intros t v H; cbn in *.
  - lia.
  - destruct H as [Hle H]. specialize (IH t' v' H). lia.
Qed.

Lemma painted_length (paint : Q -> Q) (t : nat) (v : Q) (E : list (nat * Q))
  (n : nat) :
  ordered t E n ->
  length (painted paint (body_segs t v E)) = (fst (last_seg t v E) - t)%nat.
Proof.
  revert t v. induction E as [|[t' v'] E IH]; intros t v H.
  - cbn. lia.
  - destruct H as [Hle H]. cbn [body_segs last_seg]. unfold painted in *.
    cbn [flat_map fst snd]. rewrite length_app, repeat_length, (IH t' v' H).
    pose proof (ordered_bounds t' E n v' H). lia.
Qed.

(** The loop over the values fills the spans one after the other, as long
    as every zone value finds its entry in [values]. *)
Lemma fold_paint
  (g : res (list Q * option nat) -> nat * nat * Q
       -> res (list Q * option nat))
  (values : list Q) (paint : Q -> Q) (E : list (nat * Q)) :
  (forall d b top base val,
     getitem values (int val) = Ok (paint val) ->
     g (Ok (d, b)) (top, base, val)
     = Ok (fill_slice d top base (paint val), Some base)) ->
  forall t v d b,
    ordered t E (length d) ->
    Forall (fun val => getitem values (int val) = Ok (paint val))
           (v :: map snd E) ->
    fold_left g (body_segs t v E) (Ok (d, b))
    = Ok (firstn t d ++ painted paint (body_segs t v E)
          ++ skipn (fst (last_seg t v E)) d,
          match E with [] => b | _ => Some (fst (last_seg t v E)) end).
Proof.
  intros Hg. induction E as [|[t' v'] E IH]; intros t v d b Hord Hval.
  - cbn [body_segs fold_left last_seg fst]. unfold painted.
    cbn [flat_map app]. now rewrite firstn_skipn.
  - destruct Hord as [Hle Hord]. inversion Hval as [|? ? Hv Hval']; subst.
    cbn [body_segs fold_left last_seg]. rewrite (Hg _ _ _ _ _ Hv).
    pose proof (ordered_bounds t' E (length d) v' Hord) as Hb.
    rewrite IH by (rewrite ?fill_slice_length; assumption).
    set (tm := fst (last_seg t' v' E)) in *.
    rewrite fill_slice_app by lia.
    assert (Hf : firstn t' (firstn t d ++ repeat (paint v) (t' - t)
                            ++ skipn t' d)
                 = firstn t d ++ repeat (paint v) (t' - t)).
    { rewrite app_assoc. rewrite firstn_app.
      rewrite length_app, length_firstn, repeat_length.
      replace (t' - (Nat.min t (length d) + (t' - t)))%nat with O by lia.
      cbn [firstn]. rewrite app_nil_r. apply firstn_all2.
      rewrite length_app, length_firstn, repeat_length. lia. }
    assert (Hs : skipn tm (firstn t d ++ repeat (paint v) (t' - t)
                           ++ skipn t' d)
                 = skipn tm d).
    { rewrite app_assoc, skipn_app.
      rewrite length_app, length_firstn, repeat_length.
      rewrite (skipn_all2 (firstn t d ++ _))
        by (rewrite length_app, length_firstn, repeat_length; lia).
      cbn [app]. rewrite skipn_skipn. f_equal. lia. }
    rewrite Hf, Hs. unfold painted. cbn [flat_map fst snd].
    rewrite <- !app_assoc. f_equal.
    destruct E as [|[? ?] ?]; reflexivity.
Qed.

(** The edges found after index [i] are in order and end inside the
    array. *)
Lemma edges_from_ordered (a : list Q) (i : nat) (v : Q) (t : nat) :
  (t <= i)%nat -> ordered t (Utils.edges_from i v a) (i + length a).
Proof.
  revert i v t. induction a as [|x a IH]; intros i v t Ht.
  - cbn. lia.
  - cbn [Utils.edges_from length]. destruct (Qeq_bool x v).
    + replace (i + S (length a))%nat with (S i + length a)%nat by lia.
      apply IH. lia.
    + cbn [ordered]. split; [exact Ht|].
      replace (i + S (length a))%nat with (S i + length a)%nat by lia.
      apply IH. lia.
Qed.

Lemma edges_from_strict (a : list Q) (i : nat) (v w : Q) (t : nat) :
  Utils.edges_from i v a <> [] ->
  (fst (last_seg t w (Utils.edges_from i v a)) < i + length a)%nat.
Proof.
  revert i v w t. induction a as [|x a IH]; intros i v w t Hne.
  - now destruct Hne.
  - cbn [Utils.edges_from length] in *. destruct (Qeq_bool x v).
    + specialize (IH (S i) x w t Hne). lia.
    + cbn [last_seg].
      destruct (Utils.edges_from (S i) x a) eqn:E.
      * cbn [last_seg fst]. lia.
      * rewrite <- E. assert (H : Utils.edges_from (S i) x a <> [])
          by (rewrite E; discriminate).
        specialize (IH (S i) x x i H). lia.
Qed.

(** The array of zone indices is its runs, one after the other. *)
Lemma edges_from_rebuild (zs : list Z) (i : nat) (z : Z) (t : nat) :
  (t <= i)%nat ->
  let E := Utils.edges_from i (inject_Z z) (map inject_Z zs) in
  repeat (inject_Z z) (i - t) ++ map inject_Z zs
  = painted (fun x => x) (body_segs t (inject_Z z) E)
    ++ repeat (snd (last_seg t (inject_Z z) E))
              (i + length zs - fst (last_seg t (inject_Z z) E)).
Proof.
  revert i z t. induction zs as [|x zs IH]; intros i z t Ht; cbn zeta.
  - cbn [map Utils.edges_from body_segs last_seg fst snd length].
    unfold painted. cbn [flat_map app]. rewrite app_nil_r. f_equal. lia.
  - cbn [map Utils.edges_from length].
    destruct (Qeq_bool (inject_Z x) (inject_Z z)) eqn:Exz.
    + assert (x = z) as ->.
      { apply Qeq_bool_iff in Exz. unfold Qeq in Exz. cbn in Exz. lia. }
      specialize (IH (S i) z t ltac:(lia)). cbn zeta in IH.
      replace (i + S (length zs))%nat with (S i + length zs)%nat by lia.
      rewrite <- IH.
      replace (S i - t)%nat with (S (i - t)) by lia.
      cbn [repeat]. rewrite repeat_cons, <- app_assoc. reflexivity.
    + specialize (IH (S i) x i ltac:(lia)). cbn zeta in IH.
      cbn [body_segs last_seg]. unfold painted in *. cbn [flat_map fst snd].
      replace (i + S (length zs))%nat with (S i + length zs)%nat by lia.
      rewrite <- app_assoc, <- IH.
      replace (S i - i)%nat with 1%nat by lia. reflexivity.
Qed.

Lemma painted_map (paint : Q -> Q) (segs : list (nat * nat * Q)) :
  map paint (painted (fun x => x) segs) = painted paint segs.
Proof.
  unfold painted. induction segs as [|s segs IH]; [reflexivity|].
  cbn [flat_map]. rewrite map_app, IH. f_equal.
  generalize (snd (fst s) - fst (fst s))%nat. intros n.
  induction n as [|n IHn]; [reflexivity|]. cbn [repeat map]. now rewrite IHn.
Qed.

Lemma map_repeat (paint : Q -> Q) (x : Q) (n : nat) :
  map paint (repeat x n) = repeat (paint x) n.
Proof.
  induction n as [|n IH]; [reflexivity|]. cbn [repeat map]. now rewrite IH.
Qed.

(** Zone indices that differ make edge detection find an edge. *)
Lemma edges_from_none (zs : list Z) (i : nat) (z : Z) :
  Utils.edges_from i (inject_Z z) (map inject_Z zs) = [] ->
  Forall (eq z) zs.
Proof.
  revert i z. induction zs as [|x zs IH]; intros i z H; [constructor|].
  cbn [map Utils.edges_from] in H.
  destruct (Qeq_bool (inject_Z x) (inject_Z z)) eqn:Exz; [|discriminate].
  assert (x = z) as ->.
  { apply Qeq_bool_iff in Exz. unfold Qeq in Exz. cbn in Exz. lia. }
  constructor; [reflexivity | now apply (IH (S i))].
Qed.

End MappingZones.

Section PaintingZones.

Lemma nonempty_base {A B : Type} (E : list A) (b x : B) :
  E <> [] -> match E with [] => b | _ :: _ => x end = x.
Proof. destruct E; [congruence | reflexivity]. Qed.

Lemma int_inject_Z (z : Z) : int (inject_Z z) = z.
Proof. unfold int, inject_Z. cbn [Qnum Qden]. apply Z.quot_1_r. Qed.

Lemma edges_from_vals (a : list Q) (i : nat) (v q : Q) :
  In q (map snd (Utils.edges_from i v a)) -> In q a.
Proof.
  revert i v. induction a as [|x a IH]; intros i v H; [exact H|].
  cbn [Utils.edges_from] in H. destruct (Qeq_bool x v).
  - right. exact (IH _ _ H).
  - cbn [map snd] in H. destruct H as [H|H]; [now left | right].
    exact (IH _ _ H).
Qed.

(** With two zones or more and an entry of [values] for every zone index,
    the loop over the values and the statement after it paint every sample
    with the entry of its zone. *)
Lemma map_zones_closed (values : list Q) (zones : list Z)
  (tops : list nat) (vals : list Q) :
  Utils.find_edges (map inject_Z zones) = (tops, vals) ->
  (exists z z', In z zones /\ In z' zones /\ z <> z') ->
  Forall (fun z => (0 <= z < Z.of_nat (length values))%Z) zones ->
  map_zones values (map inject_Z zones) tops vals
  = Ok (map (fun z => nth (Z.to_nat z) values 0) zones).
Proof.
  intros Hedges Htwo Hin.
  destruct zones as [|z0 zs].
  { destruct Htwo as (z & _ & [] & _). }
  cbn [map Utils.find_edges fst snd] in Hedges.
  set (E := Utils.edges_from 1 (inject_Z z0) (map inject_Z zs)) in *.
  injection Hedges as <- <-.
  assert (HE : E <> []).
  { intros HE. apply edges_from_none in HE.
    rewrite Forall_forall in HE.
    destruct Htwo as (z & z' & Hz & Hz' & Hne). apply Hne.
    assert (Hall : forall y, In y (z0 :: zs) -> y = z0).
    { intros y [Hy|Hy]; [now symmetry | symmetry; now apply HE]. }
    now rewrite (Hall z Hz), (Hall z' Hz'). }
  set (paint := fun q : Q => nth (Z.to_nat (int q)) values 0).
  set (d := inject_Z z0 :: map inject_Z zs).
  assert (Hlook : forall q, In q d ->
                    getitem values (int q) = Ok (paint q)).
  { intros q Hq. change d with (map inject_Z (z0 :: zs)) in Hq.
    apply in_map_iff in Hq. destruct Hq as (z & <- & Hz).
    rewrite Forall_forall in Hin. specialize (Hin z Hz).
    unfold paint. rewrite int_inject_Z.
    rewrite <- (Z2Nat.id z) at 1 by lia.
    apply getitem_nth_error. apply nth_error_nth'. lia. }
  assert (Hvals : Forall (fun val => getitem values (int val) = Ok (paint val))
                         (inject_Z z0 :: map snd E)).
  { apply Forall_forall. intros q [<-|Hq]; apply Hlook; [now left | right].
    exact (edges_from_vals _ _ _ _ Hq). }
  assert (Hord : ordered 0 E (length d)).
  { change (length d) with (1 + length (map inject_Z zs))%nat.
    apply edges_from_ordered. lia. }
  destruct (last_seg_tops 0%nat (inject_Z z0) E) as [_ Hlastv].
  pose proof (ordered_bounds 0%nat E (length d) (inject_Z z0) Hord) as Hb.
  pose proof (painted_length paint 0%nat (inject_Z z0) E (length d) Hord)
    as Hpl.
  pose proof (edges_from_rebuild zs 1 z0 0%nat ltac:(lia)) as Hre.
  cbn zeta in Hre. fold E in Hre.
  change (repeat (inject_Z z0) (1 - 0) ++ map inject_Z zs) with d in Hre.
  change (1 + length zs)%nat with (S (length zs)) in Hre.
  assert (Hd : length d = S (length zs))
    by (unfold d; cbn [length]; now rewrite length_map).
  unfold map_zones. rewrite body_segs_combine.
  change (map inject_Z (z0 :: zs)) with d.
  erewrite (fold_paint _ values paint E); [| | exact Hord | exact Hvals].
  2:{ intros d0 b top base val Hv. cbn [bind]. now rewrite Hv. }
  cbn [bind fst snd firstn app].
  rewrite getitem_minus_one by discriminate. cbn [bind].
  rewrite Hlastv.
  set (tm := fst (last_seg 0 (inject_Z z0) E)) in *.
  set (vl := snd (last_seg 0 (inject_Z z0) E)) in *.
  assert (Hvl : getitem values (int vl) = Ok (paint vl)).
  { rewrite Forall_forall in Hvals. apply Hvals.
    rewrite <- Hlastv.
    assert (Hne : inject_Z z0 :: map snd E <> []) by discriminate.
    destruct (exists_last Hne) as (l' & x & Hx). rewrite Hx.
    rewrite last_last. apply in_or_app. right. now left. }
  rewrite Hvl. cbn [bind].
  rewrite (nonempty_base E None (Some tm) HE).
  unfold fill_from.
  assert (Hlen : length (painted paint (body_segs 0 (inject_Z z0) E)
                         ++ skipn tm d) = length d).
  { rewrite length_app, length_skipn, Hpl. lia. }
  rewrite fill_slice_app by (rewrite ?Hlen; lia).
  rewrite Hlen. rewrite firstn_app, Hpl.
  replace (tm - (tm - 0))%nat with 0%nat by lia.
  rewrite firstn_all2 by lia. cbn [firstn]. rewrite app_nil_r.
  rewrite skipn_all2 by lia. rewrite app_nil_r.
  f_equal.
  transitivity (map paint d).
  - rewrite Hd. rewrite Hre at 1. rewrite map_app, painted_map, map_repeat.
    reflexivity.
  - unfold d. change (inject_Z z0 :: map inject_Z zs)
      with (map inject_Z (z0 :: zs)).
    rewrite map_map. apply map_ext. intros z. unfold paint.
    now rewrite int_inject_Z.
Qed.

End PaintingZones.

(** X15.  With ascending cutoffs, one more value than cutoffs and samples
    in two zones or more, [block] with [values] maps every sample to the
    value of its zone: [values[k]] for a sample with [k] cutoffs at or
    below it (strictly below it with [right=True]), whatever [function] is.
    Values given without cutoffs are blocked by [values[1:]]. *)
Theorem block_maps_values (c : Curve) (cs values : list Q) (n_bins : Z)
  (right : bool) (function : option (list Q -> Q)) :
  let zone := fun x : Q =>
    length (filter (fun b => if right then Np.Qltb b x
                             else Qle_bool b x) cs) in
  Np.ascending cs = true ->
  length values = S (length cs) ->
  (exists x y, In x (samples c) /\ In y (samples c) /\ zone x <> zone y) ->
  block c (Some (Cutoffs cs)) (Some values) n_bins right function
  = Ok (with_samples c (map (fun x => nth (zone x) values 0) (samples c))) /\
  (cs = tl values ->
   block c None (Some values) n_bins right function
   = Ok (with_samples c (map (fun x => nth (zone x) values 0) (samples c)))).
Proof.
  intros zone Hasc Hlen Htwo.
  set (zones := map (fun v => Z.of_nat (Np.searchsorted right cs v))
                    (samples c)).
  assert (Hdig : Np.digitize (samples c) cs right = Ok zones).
  { unfold Np.digitize, Np.monotonicity. now rewrite Hasc. }
  assert (Hzone : forall x, Np.searchsorted right cs x = zone x).
  { intros x. exact (searchsorted_count right cs x Hasc). }
  assert (Hres : forall tops vals,
             Utils.find_edges (map inject_Z zones) = (tops, vals) ->
             map_zones values (map inject_Z zones) tops vals
             = Ok (map (fun x => nth (zone x) values 0) (samples c))).
  { intros tops vals Hedges.
    rewrite (map_zones_closed values zones tops vals Hedges).
    - unfold zones. rewrite map_map. f_equal. apply map_ext. intros x.
      now rewrite Nat2Z.id, Hzone.
    - destruct Htwo as (x & y & Hx & Hy & Hne).
      exists (Z.of_nat (zone x)), (Z.of_nat (zone y)).
      unfold zones. repeat split.
      + apply in_map_iff. exists x. now rewrite Hzone.
      + apply in_map_iff. exists y. now rewrite Hzone.
      + lia.
    - unfold zones. apply Forall_forall. intros z Hz.
      apply in_map_iff in Hz. destruct Hz as (x & <- & _).
      rewrite Hzone. pose proof (filter_length_le
        (fun b => if right then Np.Qltb b x else Qle_bool b x) cs) as Hle.
      fold (zone x) in Hle. lia. }
  assert (Hblock : block c (Some (Cutoffs cs)) (Some values) n_bins right
                         function
                   = Ok (with_samples c
                           (map (fun x => nth (zone x) values 0) (samples c)))).
  { unfold block, block_cutoffs, block_digitize. cbn [bind].
    rewrite Hdig. cbn [bind].
    destruct (Utils.find_edges (map inject_Z zones)) as [tops vals] eqn:Hedges.
    rewrite (Hres tops vals eq_refl).
    destruct function; reflexivity. }
  split; [exact Hblock|].
  intros Hcs. rewrite <- Hblock. unfold block, block_cutoffs.
  now rewrite <- Hcs.
Qed.

(** The samples [1..5] against the cutoffs 2 and 4, painted with the
    values 10, 20 and 30. *)
Lemma block_maps_values_witness :
  block (mkCurve [1; 2; 3; 4; 5] 0 1 "GR" None 0%Z 0 None None None None)
        (Some (Cutoffs [2; 4])) (Some [10; 20; 30]) 0 false None
  = Ok (mkCurve [10; 20; 20; 30; 30] 0 1 "GR" None 0%Z 0 None None None None).
Proof.
  destruct (block_maps_values
              (mkCurve [1; 2; 3; 4; 5] 0 1 "GR" None 0%Z 0 None None None None)
              [2; 4] [10; 20; 30] 0 false None) as [H _].
  - reflexivity.
  - reflexivity.
  - exists 1, 2. split; [now left|]. split; [right; now left|].
    cbn. discriminate.
  - rewrite H. reflexivity.
Defined.

(* ------------------------------------------------------------------ *)
(** ** Construction from an increasing, irregular depth array *)

Section IncreasingDepth.









End IncreasingDepth.




(* ------------------------------------------------------------------ *)
(** ** Resampling onto the grid of another curve *)

Section Resampling.




Lemma Qltb_lt (x y : Q) : x < y -> Np.Qltb x y = true.
Proof.
  intros H. unfold Np.Qltb. destruct (Qle_bool y x) eqn:E; [|reflexivity].
  apply Qle_bool_iff in E. exfalso. exact (Qlt_not_le _ _ H E).
Qed.

End Resampling.



(* ------------------------------------------------------------------ *)
(** ** Construction on a basis *)

Section MonotoneBasis.

Lemma sorted_nth_lt (l : list Q) (i j : nat) (x y : Q) :
  StronglySorted Qlt l -> (i < j)%nat ->
  nth_error l i = Some x -> nth_error l j = Some y -> x < y.
Proof.
  intros Hs. revert i j. induction Hs as [|p l Hs IH Hp]; intros i j Hij Hi Hj.
  - destruct i; discriminate.
  - destruct j as [|j]; [lia|]. cbn [nth_error] in Hj. destruct i as [|i].
    + injection Hi as ->. rewrite Forall_forall in Hp. apply Hp.
      now apply nth_error_In with j.
    + cbn [nth_error] in Hi. apply (IH i j); [lia | assumption..].
Qed.

Lemma getitem_two (l : list Q) (x y : Q) (l' : list Q) :
  l = x :: y :: l' -> getitem l 0 = Ok x /\ getitem l 1 = Ok y.
Proof.
  intros ->. split.
  - exact (getitem_nth_error (x :: y :: l') 0 x eq_refl).
  - exact (getitem_nth_error (x :: y :: l') 1 y eq_refl).
Qed.

End MonotoneBasis.

(** X17.  Built on a basis of two points or more that runs strictly
    upward or strictly downward, a curve takes the data in the order they
    are given, starts at the smallest basis point (the first point of an
    upward basis, the last point of a downward one, which is flipped) and
    has a positive step; the other attributes are those passed in. *)
Theorem new_on_monotone_basis (data b : list Q) (params : Curve) :
  (2 <= length b)%nat ->
  StronglySorted Qlt b \/ StronglySorted Qlt (rev b) ->
  exists c',
    __new__ data (Some b) params = Ok c' /\
    samples c' = data /\
    0 < step c' /\
    (StronglySorted Qlt b -> start c' = hd 0 b) /\
    (StronglySorted Qlt (rev b) -> start c' = last b 0) /\
    (forall x, In x b -> start c' <= x) /\
    mnemonic c' = mnemonic params /\ units c' = units params /\
    null c' = null params.
Proof.
  intros Hlen Hmono.
  destruct b as [|b0 [|b1 b']] eqn:Eb; try (cbn in Hlen; lia).
  rewrite <- Eb in *.
  destruct (getitem_two b b0 b1 b' Eb) as [G0 G1].
  assert (Hn0 : nth_error b 0 = Some b0) by now rewrite Eb.
  assert (Hn1 : nth_error b 1 = Some b1) by now rewrite Eb.
  assert (Hr0 : nth_error (rev b) (length b - 1) = Some b0).
  { rewrite nth_error_rev. destruct (Nat.ltb_spec (length b - 1) (length b));
      [|lia]. now replace (length b - S (length b - 1))%nat with 0%nat by lia. }
  assert (Hr1 : nth_error (rev b) (length b - 2) = Some b1).
  { rewrite nth_error_rev. destruct (Nat.ltb_spec (length b - 2) (length b));
      [|lia]. now replace (length b - S (length b - 2))%nat with 1%nat by lia. }
  assert (Hflip : exists S,
            (if Np.Qltb b1 b0 then rev b else b) = S /\
            StronglySorted Qlt S /\ (forall x, In x b -> In x S) /\
            length S = length b /\
            (StronglySorted Qlt b -> S = b) /\
            (StronglySorted Qlt (rev b) -> S = rev b)).
  { destruct Hmono as [Hup|Hdown].
    - pose proof (sorted_nth_lt b 0 1 b0 b1 Hup ltac:(lia) Hn0 Hn1) as Hlt.
      rewrite (Qltb_false b1 b0) by (now apply Qlt_le_weak).
      exists b. repeat split; auto.
      intros Hdown.
      pose proof (sorted_nth_lt (rev b) (length b - 2) (length b - 1) b1 b0
                    Hdown ltac:(lia) Hr1 Hr0) as Hgt.
      exfalso. apply (Qlt_irrefl b0). now apply Qlt_trans with b1.
    - pose proof (sorted_nth_lt (rev b) (length b - 2) (length b - 1) b1 b0
                    Hdown ltac:(lia) Hr1 Hr0) as Hgt.
      rewrite (Qltb_lt b1 b0 Hgt).
      exists (rev b). split; [reflexivity|]. split; [exact Hdown|].
      split; [intros x Hx; now apply in_rev in Hx|].
      split; [apply length_rev|]. split; [|reflexivity].
      intros Hup.
      pose proof (sorted_nth_lt b 0 1 b0 b1 Hup ltac:(lia) Hn0 Hn1) as Hlt.
      exfalso. apply (Qlt_irrefl b0). now apply Qlt_trans with b1. }
  destruct Hflip as (S & HS & Hsorted & Hin & HlenS & Hup & Hdown).
  destruct S as [|s0 [|s1 S']] eqn:ES; try (cbn in HlenS; lia).
  rewrite <- ES in *.
  destruct (getitem_two S s0 s1 S' ES) as [F0 F1].
  assert (Hstep : s0 < s1).
  { apply (sorted_nth_lt S 0 1); [exact Hsorted | lia | | ]; now rewrite ES. }
  unfold __new__. rewrite G0, G1. cbn [bind]. rewrite HS, F0, F1. cbn [bind].
  eexists. split; [reflexivity|].
  cbn [samples start step mnemonic units null].
  split; [reflexivity|]. split; [lra|]. split; [|split; [|split]].
  - intros H. rewrite <- (Hup H), ES. reflexivity.
  - intros H. rewrite <- (rev_involutive b), <- (Hdown H), ES.
    cbn [rev]. now rewrite last_last.
  - intros x Hx. specialize (Hin x Hx). rewrite ES in Hin.
    destruct Hin as [<-|Hin]; [apply Qle_refl|].
    apply Qlt_le_weak. rewrite ES in Hsorted.
    inversion Hsorted as [|? ? _ Hall]; subst.
    rewrite Forall_forall in Hall. now apply Hall.
  - repeat split.
Qed.

(** The basis 10, 9, 8 of three samples read downward. *)
Lemma new_on_monotone_basis_witness :
  exists c',
    __new__ [1; 2; 3] (Some [10; 9; 8])
            (mkCurve [] 0 1 "GR" None 0%Z 0 None None None None)
    = Ok c' /\
    samples c' = [1; 2; 3] /\ start c' = 8 /\ 0 < step c'.
Proof.
  destruct (new_on_monotone_basis [1; 2; 3] [10; 9; 8]
              (mkCurve [] 0 1 "GR" None 0%Z 0 None None None None))
    as (c' & Hc' & Hs & Hpos & _ & Hdown & _).
  - cbn. lia.
  - right. cbn. repeat constructor.
  - exists c'. split; [exact Hc'|]. split; [exact Hs|].
    split; [|exact Hpos]. apply Hdown. cbn. repeat constructor.
Defined.

(* ------------------------------------------------------------------ *)
(** ** Rolling windows over a contiguous curve *)

Section RollingWindow.

(** An entry of the edge-padded samples, in terms of the samples. *)
Lemma nth_padded (a : list Q) (pad k : nat) :
  a <> [] -> (k < pad + length a + pad)%nat ->
  nth k (repeat (hd 0 a) pad ++ a ++ repeat (last a 0) pad) 0
  = nth (Nat.min (k - pad) (length a - 1)) a 0.
Proof.
  intros Ha Hk.
  assert (HN : (1 <= length a)%nat) by (destruct a; [congruence | cbn; lia]).
  destruct (Nat.lt_ge_cases k pad) as [Hlo|Hlo].
  - rewrite app_nth1 by (rewrite repeat_length; lia).
    rewrite nth_repeat_lt by lia.
    replace (k - pad)%nat with O by lia. rewrite Nat.min_0_l.
    destruct a; [congruence | reflexivity].
  - rewrite app_nth2 by (rewrite repeat_length; lia). rewrite repeat_length.
    destruct (Nat.lt_ge_cases (k - pad) (length a)) as [Hmid|Hhi].
    + rewrite app_nth1 by lia. now rewrite Nat.min_l by lia.
    + rewrite app_nth2 by lia. rewrite nth_repeat_lt by lia.
      rewrite Nat.min_r by lia. apply last_as_nth.
Qed.

Lemma forced_odd (w : Z) :
  (0 <= w)%Z ->
  let w' := (if (w mod 2 =? 0)%Z then w + 1 else w)%Z in
  (0 <= w')%Z /\ Nat.odd (Z.to_nat w') = true.
Proof.
  intros Hw w'. assert (Hm := Z.mod_pos_bound w 2 ltac:(lia)).
  assert (Hd := Z.div_mod w 2 ltac:(lia)).
  unfold w'. destruct (Z.eqb_spec (w mod 2) 0) as [E|E].
  - split; [lia|]. rewrite Nat.odd_spec. exists (Z.to_nat (w / 2)). lia.
  - split; [lia|]. rewrite Nat.odd_spec. exists (Z.to_nat (w / 2)). lia.
Qed.

Lemma odd_half (n : nat) : Nat.odd n = true -> (n - 1 <= 2 * (n / 2))%nat.
Proof.
  intros H. apply Nat.odd_spec in H. destruct H as [m ->].
  replace (2 * m + 1)%nat with (1 + m * 2)%nat by lia.
  rewrite Nat.div_add by lia. cbn. lia.
Qed.

Lemma traverse_map_in {A B : Type} (f : A -> res B) (g : A -> B)
  (l : list A) :
  (forall x, In x l -> f x = Ok (g x)) -> traverse f l = Ok (map g l).
Proof.
  induction l as [|x l IH]; intros H; [reflexivity|].
  cbn [traverse map]. rewrite (H x) by now left. cbn [bind].
  rewrite IH; [reflexivity|]. intros y Hy. apply H. now right.
Qed.

Lemma at_offset_inside (buffer : list Q) (k : nat) :
  (k < length buffer)%nat -> at_offset buffer (Z.of_nat k) = Ok (nth k buffer 0).
Proof.
  intros Hk. unfold at_offset.
  replace (0 <=? Z.of_nat k)%Z with true by (symmetry; apply Z.leb_le; lia).
  replace (Z.of_nat k <? Z.of_nat (length buffer))%Z with true
    by (symmetry; apply Z.ltb_lt; lia).
  cbn [andb]. rewrite Nat2Z.id.
  now rewrite (nth_error_nth' buffer 0 Hk).
Qed.

Lemma combine_by_index {A B : Type} (l : list A) (d : A) (G : nat -> B)
  (s : nat) :
  combine l (map G (seq s (length l)))
  = map (fun i => (nth (i - s) l d, G i)) (seq s (length l)).
Proof.
  revert s. induction l as [|x l IH]; intros s; [reflexivity|].
  cbn [length seq map combine]. f_equal.
  - now rewrite Nat.sub_diag.
  - rewrite IH. apply map_ext_in. intros i Hi. apply in_seq in Hi.
    replace (i - s)%nat with (S (i - S s)) by lia. reflexivity.
Qed.

End RollingWindow.

(** X6.  On a contiguous array with entries (stride 1), with the step 1 and
    a window length [w >= 0], [_rolling_window] works on windows of odd
    length ([w], or [w + 1] when [w] is even), one per entry and centred on
    it: entry [j] of window [i] is the entry [i + j - half] of the array,
    NaN read as zero, with the first and the last entry standing in for
    positions beyond the ends.  The result holds [func1d] of the window,
    and NaN wherever the array holds NaN. *)
Theorem rolling_window_contiguous (self : list (option Q)) (w : Z)
  (func1d : list Q -> option Q) :
  self <> [] -> (0 <= w)%Z ->
  let w' := Z.to_nat (if (w mod 2 =? 0)%Z then w + 1 else w) in
  let data := map nan_to_num self in
  Nat.odd w' = true /\
  _rolling_window 1 self w func1d 1
  = Ok (map (fun i =>
               match nth i self None with
               | None => None
               | Some _ =>
                   func1d
                     (map (fun j =>
                             nth (Nat.min (i + j - w' / 2) (length self - 1))
                                 data 0)
                          (seq 0 w'))
               end)
            (seq 0 (length self))).
Proof.
  intros Hne Hw w' data. destruct (forced_odd w Hw) as [Hpos Hodd].
  split; [exact Hodd|]. unfold _rolling_window. fold data.
  set (wz := if (w mod 2 =? 0)%Z then (w + 1)%Z else w) in *.
  fold w'. rewrite Z.mul_1_l.
  assert (Hpad : (0 <= wz / 2)%Z) by (apply Z.div_pos; lia).
  replace (wz / 2 <? 0)%Z with false by (symmetry; apply Z.ltb_ge; lia).
  replace (wz <? 0)%Z with false by (symmetry; apply Z.ltb_ge; lia).
  assert (Hp : Z.to_nat (wz / 2) = (w' / 2)%nat).
  { unfold w'. now rewrite Z2Nat.inj_div by lia. }
  rewrite Hp.
  assert (Hlen : length data = length self) by apply length_map.
  assert (Hdne : data <> []).
  { intros E. apply Hne. apply map_eq_nil in E. exact E. }
  destruct data as [|x0 xs] eqn:Ed; [congruence|]. rewrite <- Ed in *.
  replace x0 with (hd 0 data) by now rewrite Ed.
  set (padded := repeat (hd 0 data) (w' / 2) ++ data
                 ++ repeat (last data 0) (w' / 2)).
  assert (Hplen : length padded = (w' / 2 + length self + w' / 2)%nat).
  { unfold padded. rewrite !length_app, !repeat_length. lia. }
  pose proof (odd_half w' Hodd) as Hhalf.
  erewrite (traverse_map_in _
              (fun i => map (fun j => nth (i + j) padded 0) (seq 0 w'))).
  2:{ intros i Hi. apply in_seq in Hi. apply traverse_map_in.
      intros j Hj. apply in_seq in Hj.
      replace ((Z.of_nat i + Z.of_nat j * 1) * 1)%Z with (Z.of_nat (i + j))
        by lia.
      apply at_offset_inside. lia. }
  cbn [bind]. f_equal.
  rewrite (combine_by_index self None _ 0), map_map.
  apply map_ext_in. intros i Hi. apply in_seq in Hi.
  cbn [fst snd]. rewrite Nat.sub_0_r.
  destruct (nth i self None) as [v|]; [|reflexivity].
  f_equal. apply map_ext_in. intros j Hj. apply in_seq in Hj.
  unfold padded. rewrite nth_padded; [now rewrite Hlen | exact Hdne | lia].
Qed.

(** Three entries, the middle one NaN, and a window of two forced to
    three: each window is read at its middle entry. *)
Lemma rolling_window_contiguous_witness :
  _rolling_window 1 [Some 1; None; Some 3] 2 (fun win => nth_error win 1) 1
  = Ok [Some 1; None; Some 3].
Proof.
  destruct (rolling_window_contiguous [Some 1; None; Some 3] 2
              (fun win => nth_error win 1)) as [_ H].
  - discriminate.
  - lia.
  - rewrite H. reflexivity.
Defined.

Section StridedWindows.

Lemma traverse_no_value {A B : Type} (f : A -> res B) (l : list A) :
  (forall x, In x l -> (exists y, f x = Ok y) \/ f x = Unmodelled) ->
  (exists ys, traverse f l = Ok ys) \/ traverse f l = Unmodelled.
Proof.
  induction l as [|x l IH]; intros H; [left; now exists []|].
  cbn [traverse]. destruct (H x (or_introl eq_refl)) as [[y ->]| ->];
    [|now right].
  cbn [bind]. destruct IH as [[ys ->]| ->].
  - intros z Hz. apply H. now right.
  - left. now eexists.
  - now right.
Qed.

Lemma traverse_unmodelled {A B : Type} (f : A -> res B) (l : list A) (x : A) :
  (forall z, In z l -> (exists y, f z = Ok y) \/ f z = Unmodelled) ->
  In x l -> f x = Unmodelled -> traverse f l = Unmodelled.
Proof.
  induction l as [|z l IH]; intros H Hx Hf; [destruct Hx|].
  cbn [traverse]. destruct Hx as [->|Hx]; [now rewrite Hf|].
  destruct (H z (or_introl eq_refl)) as [[y ->]| ->]; [|reflexivity].
  cbn [bind]. rewrite IH; [reflexivity | | exact Hx | exact Hf].
  intros z' Hz'. apply H. now right.
Qed.

Lemma at_offset_cases (buffer : list Q) (k : Z) :
  (exists y, at_offset buffer k = Ok y) \/ at_offset buffer k = Unmodelled.
Proof.
  unfold at_offset.
  destruct ((0 <=? k)%Z && (k <? Z.of_nat (length buffer))%Z)%bool;
    [|now right].
  destruct (nth_error buffer (Z.to_nat k)); [left; now eexists | now right].
Qed.

Lemma at_offset_outside (buffer : list Q) (k : Z) :
  (Z.of_nat (length buffer) <= k)%Z -> at_offset buffer k = Unmodelled.
Proof.
  intros Hk. unfold at_offset.
  replace (k <? Z.of_nat (length buffer))%Z with false
    by (symmetry; apply Z.ltb_ge; lia).
  now rewrite andb_false_r.
Qed.

End StridedWindows.

(** X18.  On an array of two entries or more whose entries lie two places
    or more apart in memory, as those of a curve sliced with a step, the
    windows of [_rolling_window] do not stay inside the padded copy they
    are laid over: the last entry of the last window lies beyond its end,
    and the result is read from outside the array. *)
Theorem rolling_window_strided (stride : Z) (self : list (option Q)) (w : Z)
  (func1d : list Q -> option Q) :
  (2 <= stride)%Z -> (2 <= length self)%nat -> (0 <= w)%Z ->
  let w' := Z.to_nat (if (w mod 2 =? 0)%Z then w + 1 else w) in
  let padded_length := (w' / 2 + length self + w' / 2)%nat in
  (Z.of_nat padded_length
   <= (Z.of_nat (length self - 1) + Z.of_nat (w' - 1) * 1) * stride)%Z /\
  _rolling_window stride self w func1d 1 = Unmodelled.
Proof.
  intros Hs HN Hw w' padded_length. destruct (forced_odd w Hw) as [Hpos Hodd].
  set (wz := if (w mod 2 =? 0)%Z then (w + 1)%Z else w) in *.
  pose proof (odd_half w' Hodd) as Hhalf.
  assert (Hw1 : (1 <= w')%nat).
  { destruct (Nat.eq_dec w' 0) as [E|E]; [|lia].
    unfold w' in E. rewrite E in Hodd. discriminate Hodd. }
  assert (Hdiv : (2 * (w' / 2) <= w')%nat).
  { pose proof (Nat.div_mod_eq w' 2). lia. }
  assert (Hout : (Z.of_nat padded_length
                  <= (Z.of_nat (length self - 1) + Z.of_nat (w' - 1) * 1)
                     * stride)%Z).
  { unfold padded_length. nia. }
  split; [exact Hout|].
  unfold _rolling_window. fold wz. fold w'. rewrite Z.mul_1_l.
  assert (Hpad : (0 <= wz / 2)%Z) by (apply Z.div_pos; lia).
  replace (wz / 2 <? 0)%Z with false by (symmetry; apply Z.ltb_ge; lia).
  replace (wz <? 0)%Z with false by (symmetry; apply Z.ltb_ge; lia).
  assert (Hp : Z.to_nat (wz / 2) = (w' / 2)%nat).
  { unfold w'. now rewrite Z2Nat.inj_div by lia. }
  rewrite Hp.
  assert (Hlen : length (map nan_to_num self) = length self)
    by apply length_map.
  destruct (map nan_to_num self) as [|x0 xs] eqn:Ed;
    [cbn in Hlen; lia|]. rewrite <- Ed in *.
  set (padded := repeat x0 (w' / 2) ++ map nan_to_num self
                 ++ repeat (last (map nan_to_num self) 0) (w' / 2)).
  assert (Hplen : length padded = padded_length).
  { unfold padded, padded_length.
    rewrite !length_app, !repeat_length, Hlen. lia. }
  rewrite (traverse_unmodelled _ _ (length self - 1)%nat); [reflexivity| | |].
  - intros i _. apply traverse_no_value. intros j _. apply at_offset_cases.
  - apply in_seq. lia.
  - apply (traverse_unmodelled _ _ (w' - 1)%nat).
    + intros j _. apply at_offset_cases.
    + apply in_seq. lia.
    + apply at_offset_outside. rewrite Hplen. exact Hout.
Qed.

(** Every second of five entries, under a window of three: the padded
    copy has five entries, and the last window ends at the place 8. *)
Lemma rolling_window_strided_witness :
  _rolling_window 2 [Some 1; Some 4; Some 16] 3 (fun win => nth_error win 1) 1
  = Unmodelled.
Proof.
  destruct (rolling_window_strided 2 [Some 1; Some 4; Some 16] 3
              (fun win => nth_error win 1)) as [_ H].
  - lia.
  - cbn. lia.
  - lia.
  - exact H.
Defined.
